(** * Instanced sphere grid: a model of [src/code/main.cpp] and its properties

    The program generates a latitude/longitude sphere mesh, fills a dense
    array of per-instance records for a 3-D lattice of spheres, compiles two
    shaders and then draws the lattice every frame with an orbiting camera.

    Conventions of the model:
    - [unsigned int] is a [Z] in [0, 2^32) and every arithmetic operation on
      it wraps modulo 2^32 ([uadd], [umul]);
    - [int] is a [Z]; the lattice extents are small compile-time constants,
      so no operation on them leaves the range of [int];
    - [float] and [double] are idealised as the real numbers [R]: rounding is
      not modelled, [std::sin], [std::cos] and [M_PI] are [sin], [cos], [PI];
    - [std::vector<T>] is a [list T]; [push_back] appends at the end,
      [v[i] = x] is the list update [<[i:=x]> v];
    - a loop whose exit depends on wrapping arithmetic or on the outside
      world runs on fuel and yields [None] when the fuel is used up;
    - the windowing and graphics backend is an oracle ([Backend]) that
      answers the calls whose results the program inspects. *)

From Stdlib Require Import Reals Lra ZArith Lia.
From stdpp Require Import base option list list_numbers strings.

Open Scope Z_scope.

(** ** Machine integers *)

Definition UINT_MAX : Z := 4294967295.

Definition uwrap (z : Z) : Z := z mod (UINT_MAX + 1).

(** [a + b] and [a * b] on [unsigned int]. *)
Definition uadd (a b : Z) : Z := uwrap (a + b).
Definition umul (a b : Z) : Z := uwrap (a * b).

(** ** Floating point, idealised *)

Abbreviation float := R.

Record vec3 := Vec3 { vx : float; vy : float; vz : float }.
Record vec4 := Vec4 { x4 : float; y4 : float; z4 : float; w4 : float }.

(** [glm::mat4] is column major: [m[c]] is column [c]. *)
Record mat4 := Mat4 { col0 : vec4; col1 : vec4; col2 : vec4; col3 : vec4 }.

(** ** Loops *)

(** [for (unsigned int i = i0; cond(i); ++i) body] with the loop state [s];
    the body may itself fail to finish. *)
Fixpoint for_loop {St : Type} (fuel : nat) (cond : Z → bool)
    (body : Z → St → option St) (i : Z) (s : St) : option St :=
  match fuel with
  | O => None
  | S fuel' =>
      if cond i then
        match body i s with
        | Some s' => for_loop fuel' cond body (uadd i 1) s'
        | None => None
        end
      else Some s
  end.

(** The run of a loop over a known list of counter values. *)
Fixpoint run_over {St : Type} (body : Z → St → option St) (l : list Z) (s : St)
    : option St :=
  match l with
  | [] => Some s
  | i :: l' =>
      match body i s with
      | Some s' => run_over body l' s'
      | None => None
      end
  end.

(** [std::vector::clear]. *)
Definition clear {A : Type} (v : list A) : list A := [].

(** ** generateSphere *)

(** Body of the longitude loop of the vertex pass: six [push_back]s. *)
Definition push_vertex (radius sinTheta cosTheta : float) (longitudeBands : Z)
    (lon : Z) (vertices : list float) : option (list float) :=
  let phi := (IZR lon * 2 * PI / IZR longitudeBands)%R in
  let sinPhi := sin phi in
  let cosPhi := cos phi in
  let x := (cosPhi * sinTheta)%R in
  let y := cosTheta in
  let z := (sinPhi * sinTheta)%R in
  Some (vertices ++ [(radius * x)%R; (radius * y)%R; (radius * z)%R; x; y; z]).

(** Body of the latitude loop of the vertex pass. *)
Definition push_vertex_row (fuel : nat) (radius : float)
    (latitudeBands longitudeBands : Z) (lat : Z) (vertices : list float)
    : option (list float) :=
  let theta := (IZR lat * PI / IZR latitudeBands)%R in
  let sinTheta := sin theta in
  let cosTheta := cos theta in
  for_loop fuel (λ lon, lon <=? longitudeBands)
    (push_vertex radius sinTheta cosTheta longitudeBands) 0 vertices.

(** Body of the longitude loop of the index pass: two triangles. *)
Definition push_quad (longitudeBands : Z) (lat lon : Z) (indices : list Z)
    : option (list Z) :=
  let first := uadd (umul lat (uadd longitudeBands 1)) lon in
  let second := uadd (uadd first longitudeBands) 1 in
  Some (indices ++ [first; second; uadd first 1;
                    second; uadd second 1; uadd first 1]).

(** The index pass (the second pair of loops of [generateSphere]). *)
Definition generateIndices (fuel : nat) (latitudeBands longitudeBands : Z)
    (indices : list Z) : option (list Z) :=
  for_loop fuel (λ lat, lat <? latitudeBands)
    (λ lat indices,
       for_loop fuel (λ lon, lon <? longitudeBands)
         (push_quad longitudeBands lat) 0 indices)
    0 indices.

(** The vertex pass (the first pair of loops of [generateSphere]). *)
Definition generateVertices (fuel : nat) (radius : float)
    (latitudeBands longitudeBands : Z) (vertices : list float)
    : option (list float) :=
  for_loop fuel (λ lat, lat <=? latitudeBands)
    (push_vertex_row fuel radius latitudeBands longitudeBands) 0 vertices.

(** [generateSphere(vertices, indices, latitudeBands, longitudeBands)]: the
    two vectors are passed in and returned. *)
Definition generateSphere (fuel : nat) (vertices : list float)
    (indices : list Z) (latitudeBands longitudeBands : Z)
    : option (list float * list Z) :=
  let radius : float := 1%R in
  let vertices := clear vertices in
  let indices := clear indices in
  vertices ← generateVertices fuel radius latitudeBands longitudeBands vertices;
  indices ← generateIndices fuel latitudeBands longitudeBands indices;
  Some (vertices, indices).

(** ** The parts of GLM the program uses

    [glm::mat4(1.0f)], [glm::translate], [glm::scale] and the matrix product,
    as GLM defines them on column-major matrices. *)
Module glm.

Definition vec4_scale (v : vec4) (s : float) : vec4 :=
  Vec4 (x4 v * s) (y4 v * s) (z4 v * s) (w4 v * s).

Definition vec4_add (a b : vec4) : vec4 :=
  Vec4 (x4 a + x4 b) (y4 a + y4 b) (z4 a + z4 b) (w4 a + w4 b).

(** [glm::mat4(s)]: [s] on the diagonal. *)
Definition diag (s : float) : mat4 :=
  Mat4 (Vec4 s 0 0 0) (Vec4 0 s 0 0) (Vec4 0 0 s 0) (Vec4 0 0 0 s).

(** [glm::vec3(s)]. *)
Definition splat (s : float) : vec3 := Vec3 s s s.

(** [glm::length(v)]. *)
Definition length (v : vec3) : float :=
  sqrt (vx v * vx v + vy v * vy v + vz v * vz v).

(** [Result[3] = m[0]*v[0] + m[1]*v[1] + m[2]*v[2] + m[3]]. *)
Definition translate (m : mat4) (v : vec3) : mat4 :=
  Mat4 (col0 m) (col1 m) (col2 m)
    (vec4_add
       (vec4_add
          (vec4_add (vec4_scale (col0 m) (vx v)) (vec4_scale (col1 m) (vy v)))
          (vec4_scale (col2 m) (vz v)))
       (col3 m)).

(** [Result[c] = m[c] * v[c]] for the first three columns. *)
Definition scale (m : mat4) (v : vec3) : mat4 :=
  Mat4 (vec4_scale (col0 m) (vx v)) (vec4_scale (col1 m) (vy v))
    (vec4_scale (col2 m) (vz v)) (col3 m).

(** [a * v]: the linear combination of the columns of [a]. *)
Definition mul_vec (a : mat4) (v : vec4) : vec4 :=
  vec4_add
    (vec4_add
       (vec4_add (vec4_scale (col0 a) (x4 v)) (vec4_scale (col1 a) (y4 v)))
       (vec4_scale (col2 a) (z4 v)))
    (vec4_scale (col3 a) (w4 v)).

(** [a * b], column by column. *)
Definition mul (a b : mat4) : mat4 :=
  Mat4 (mul_vec a (col0 b)) (mul_vec a (col1 b)) (mul_vec a (col2 b))
    (mul_vec a (col3 b)).

End glm.

(** ** The instance grid *)

Record InstanceData := { model : mat4; color : vec3 }.

(** The translation part of a model matrix: its last column. *)
Definition translation (m : mat4) : vec3 :=
  Vec3 (x4 (col3 m)) (y4 (col3 m)) (z4 (col3 m)).

(** A value-initialised [InstanceData]. *)
Definition InstanceData_zero : InstanceData :=
  {| model := glm.diag 0; color := Vec3 0 0 0 |}.

Section InstanceGrid.

(** The lattice extents, the spacing and the sphere scale; [main] fixes
    them to 30, 30, 30, 1.15 and 0.33. *)
Variables numObj_x numObj_y numObj_z : Z.
Variables spread sphereScale : float.

(** The record computed in the innermost loop body for lattice cell
    [(i, j, k)]. *)
Definition instance_at (i j k : Z) : InstanceData :=
  let x := (IZR (- numObj_x) / 2 * spread + spread * IZR i)%R in
  let y := (spread * IZR j + spread)%R in
  let z := (IZR (- numObj_z) / 2 * spread + spread * IZR k)%R in
  let model := glm.translate (glm.diag 1) (Vec3 x y z) in
  let model := glm.scale model (glm.splat sphereScale) in
  let color :=
    Vec3 (0.1 * IZR (i + 1)) (0.1 * IZR (j + 1)) (0.1 * IZR (k + 1)) in
  {| model := model; color := color |}.

(** [int index = i * (numObj_y * numObj_z) + j * numObj_z + k]. *)
Definition linear_index (i j k : Z) : Z :=
  i * (numObj_y * numObj_z) + j * numObj_z + k.

(** The innermost loop body: [instanceData[index] = {model, color}]. *)
Definition store_instance (i j k : Z) (instanceData : list InstanceData)
    : list InstanceData :=
  let index := linear_index i j k in
  <[Z.to_nat index := instance_at i j k]> instanceData.

(** The three nested loops over [i], [j], [k]. *)
Definition fillInstanceData (instanceData : list InstanceData)
    : list InstanceData :=
  foldl (λ instanceData i,
    foldl (λ instanceData j,
      foldl (λ instanceData k, store_instance i j k instanceData)
        instanceData (seqZ 0 numObj_z))
      instanceData (seqZ 0 numObj_y))
    instanceData (seqZ 0 numObj_x).

(** [std::vector<InstanceData> instanceData(instanceCount)] followed by
    the loops. *)
Definition buildInstanceData : list InstanceData :=
  let instanceCount := numObj_x * numObj_y * numObj_z in
  fillInstanceData (replicate (Z.to_nat instanceCount) InstanceData_zero).

(** The lattice cells in the order the loops visit them. *)
Definition lattice : list (Z * Z * Z) :=
  i ← seqZ 0 numObj_x; j ← seqZ 0 numObj_y; k ← seqZ 0 numObj_z;
  [(i, j, k)].

(** The cell that a slot of the array belongs to. *)
Definition cell_of_index (n : Z) : Z * Z * Z :=
  (n / (numObj_y * numObj_z), (n / numObj_z) mod numObj_y, n mod numObj_z).

Definition in_lattice (c : Z * Z * Z) : Prop :=
  let '(i, j, k) := c in
  0 ≤ i < numObj_x ∧ 0 ≤ j < numObj_y ∧ 0 ≤ k < numObj_z.

End InstanceGrid.

(** ** The backend

    What the windowing and graphics libraries answer.  Calls that return
    nothing the program looks at (buffer and attribute set-up, uniforms,
    buffer swaps, event polling, clean-up) leave no trace in the model
    except for the data they are handed, which [Process] records. *)

Definition GLEW_OK : Z := 0.
Definition GL_FRAGMENT_SHADER : Z := 35632.
Definition GL_VERTEX_SHADER : Z := 35633.

Record Backend := {
  (** [glfwInit()]: non-zero on success. *)
  glfwInit : Z;
  (** [glfwCreateWindow(...)]: the window pointer, 0 for [nullptr]. *)
  glfwCreateWindow : Z;
  (** [glewInit()]. *)
  glewInit : Z;
  (** [glCreateShader(type)]. *)
  glCreateShader : Z → Z;
  (** [GL_COMPILE_STATUS] of a shader after compiling a source. *)
  compileStatus : Z → string → Z;
  (** The information log of a shader after compiling a source. *)
  shaderInfoLog : Z → string → string;
  (** [glfwWindowShouldClose(window)] at the start of iteration [n]. *)
  glfwWindowShouldClose : nat → Z;
  (** [glutGet(GLUT_ELAPSED_TIME)] in iteration [n], in milliseconds. *)
  glutGet_ELAPSED_TIME : nat → Z
}.

(** One [glDrawElementsInstanced] call with the view it is drawn under. *)
Record DrawCall := {
  draw_eye : vec3;
  draw_target : vec3;
  draw_up : vec3;
  draw_count : nat;
  draw_instancecount : Z
}.

(** What the process has written and handed to the backend so far. *)
Record Process := {
  cerr : string;
  VBO : list float;
  EBO : list Z;
  instanceVBO : list InstanceData;
  draws : list DrawCall
}.

Definition Process_start : Process :=
  {| cerr := ""; VBO := []; EBO := []; instanceVBO := []; draws := [] |}.

Definition write_cerr (text : string) (p : Process) : Process :=
  {| cerr := cerr p +:+ text; VBO := VBO p; EBO := EBO p;
     instanceVBO := instanceVBO p; draws := draws p |}.

Definition upload_mesh (vertices : list float) (indices : list Z)
    (p : Process) : Process :=
  {| cerr := cerr p; VBO := vertices; EBO := indices;
     instanceVBO := instanceVBO p; draws := draws p |}.

Definition upload_instances (data : list InstanceData) (p : Process)
    : Process :=
  {| cerr := cerr p; VBO := VBO p; EBO := EBO p; instanceVBO := data;
     draws := draws p |}.

Definition record_draw (d : DrawCall) (p : Process) : Process :=
  {| cerr := cerr p; VBO := VBO p; EBO := EBO p;
     instanceVBO := instanceVBO p; draws := draws p ++ [d] |}.

(** ** compileShader *)

Definition endl : string := String (Ascii.ascii_of_nat 10) EmptyString.

(** [glGetShaderInfoLog(shader, bufSize, nullptr, infoLog)] stores at most
    [bufSize - 1] characters of the log. *)
Definition glGetShaderInfoLog (be : Backend) (shader : Z) (source : string)
    (bufSize : nat) : string :=
  String.substring 0 (bufSize - 1)%nat (shaderInfoLog be shader source).

Definition compileShader (be : Backend) (type : Z) (source : string)
    (p : Process) : Z * Process :=
  let shader := glCreateShader be type in
  let success := compileStatus be shader source in
  if success =? 0 then
    let infoLog := glGetShaderInfoLog be shader source 512 in
    (shader, write_cerr ("Error compiling shader: " +:+ infoLog +:+ endl) p)
  else (shader, p).

(** ** The render loop and main *)

Definition vertexShaderSource : string :=
"
#version 450 core
layout(location = 0) in vec3 aPos;
layout(location = 1) in vec3 aNormal;
layout(location = 2) in mat4 instanceModel;
layout(location = 6) in vec3 instanceColor;

uniform mat4 view;
uniform mat4 projection;

out vec3 FragPos;
out vec3 Normal;
out vec3 Color;

void main() {
    mat4 model = instanceModel;
    FragPos = vec3(model * vec4(aPos, 1.0));
    Normal = mat3(transpose(inverse(model))) * aNormal;
    Color = instanceColor;
    gl_Position = projection * view * vec4(FragPos, 1.0);
}
".

Definition fragmentShaderSource : string :=
"
#version 450 core
in vec3 FragPos;
in vec3 Normal;
in vec3 Color;

out vec4 FragColor;

void main() {
    FragColor = vec4(Color, 1.0);
}
".

Definition numObj_x : Z := 30.
Definition numObj_y : Z := 30.
Definition numObj_z : Z := 30.
Definition instanceCount : Z := numObj_x * numObj_y * numObj_z.
Definition spread : float := 1.15%R.
Definition cameraDist : float := (spread * IZR numObj_x * 1.5)%R.
Definition camSpead2 : float := 0.5%R.
Definition camera_speed : float := 0.1%R.
Definition camera_radius : float := cameraDist.

(** The two assignments to [cameraPos.x] and [cameraPos.z] of an iteration;
    [cameraPos.y] is not assigned. *)
Definition move_camera (timeSinceStart : float) (cameraPos : vec3) : vec3 :=
  {| vx := (sin (timeSinceStart * camera_speed) * - camera_radius)%R;
     vy := vy cameraPos;
     vz := (cos (timeSinceStart * camera_speed) * camera_radius)%R |}.

(** [while (!glfwWindowShouldClose(window)) { ... }], entered at iteration
    [n]. *)
Fixpoint render_loop (fuel : nat) (be : Backend) (n : nat)
    (indices : list Z) (targetPos upDirection : vec3) (cameraPos : vec3)
    (p : Process) : option Process :=
  match fuel with
  | O => None
  | S fuel' =>
      if glfwWindowShouldClose be n =? 0 then
        let timeSinceStart := (IZR (glutGet_ELAPSED_TIME be n) / 1000)%R in
        let cameraPos := move_camera timeSinceStart cameraPos in
        let p :=
          record_draw
            {| draw_eye := cameraPos; draw_target := targetPos;
               draw_up := upDirection; draw_count := length indices;
               draw_instancecount := instanceCount |} p in
        render_loop fuel' be (S n) indices targetPos upDirection cameraPos p
      else Some p
  end.

(** [main]: the exit status and what the process did, or [None] while the
    window stays open beyond the fuel. *)
Definition main (fuel : nat) (be : Backend) : option (Z * Process) :=
  let p := Process_start in
  if glfwInit be =? 0 then Some (-1, p) else
  let window := glfwCreateWindow be in
  if window =? 0 then Some (-1, p) else
  if negb (glewInit be =? GLEW_OK) then Some (-1, p) else
  '(vertices, indices) ← generateSphere fuel [] [] 4 4;
  let p := upload_mesh vertices indices p in
  let instanceData :=
    buildInstanceData numObj_x numObj_y numObj_z spread 0.33%R in
  let p := upload_instances (take (Z.to_nat instanceCount) instanceData) p in
  let '(vertexShader, p) :=
    compileShader be GL_VERTEX_SHADER vertexShaderSource p in
  let '(fragmentShader, p) :=
    compileShader be GL_FRAGMENT_SHADER fragmentShaderSource p in
  let cameraPos :=
    Vec3 (camSpead2 * cameraDist) cameraDist (camSpead2 * cameraDist) in
  let targetPos := Vec3 0 (IZR numObj_y * spread * 0.5) 0 in
  let upDirection := Vec3 0 0 (-1) in
  p ← render_loop fuel be 0 indices targetPos upDirection cameraPos p;
  Some (0, p).

(** ** Reading the vertex buffer

    The attribute set-up of [main] reads the vertex buffer with a stride of
    six floats: the position at offset 0 and the normal at offset 3. *)

Record Vertex := { position : vec3; normal : vec3 }.

Definition vertex_at (vertices : list float) (n : nat) : option Vertex :=
  px ← vertices !! (6 * n)%nat;
  py ← vertices !! (6 * n + 1)%nat;
  pz ← vertices !! (6 * n + 2)%nat;
  nx ← vertices !! (6 * n + 3)%nat;
  ny ← vertices !! (6 * n + 4)%nat;
  nz ← vertices !! (6 * n + 5)%nat;
  Some {| position := Vec3 px py pz; normal := Vec3 nx ny nz |}.

Definition vertex_count (vertices : list float) : nat :=
  (length vertices / 6)%nat.

(** [GL_TRIANGLES] draws one triangle per three indices. *)
Definition triangle_count (indices : list Z) : nat :=
  (length indices / 3)%nat.

(** The six floats pushed for the pair [(lat, lon)]. *)
Definition vertex_floats (latitudeBands longitudeBands lat lon : Z)
    : list float :=
  let theta := (IZR lat * PI / IZR latitudeBands)%R in
  let phi := (IZR lon * 2 * PI / IZR longitudeBands)%R in
  let x := (cos phi * sin theta)%R in
  let y := cos theta in
  let z := (sin phi * sin theta)%R in
  [(1 * x)%R; (1 * y)%R; (1 * z)%R; x; y; z].

(** The six indices pushed for the quad [(lat, lon)]. *)
Definition quad_indices (longitudeBands lat lon : Z) : list Z :=
  let first := uadd (umul lat (uadd longitudeBands 1)) lon in
  let second := uadd (uadd first longitudeBands) 1 in
  [first; second; uadd first 1; second; uadd second 1; uadd first 1].

(** What [generateSphere] leaves in its two vectors, in closed form. *)
Definition sphere_vertices (latitudeBands longitudeBands : Z) : list float :=
  lat ← seqZ 0 (latitudeBands + 1);
  lon ← seqZ 0 (longitudeBands + 1);
  vertex_floats latitudeBands longitudeBands lat lon.

Definition sphere_indices (latitudeBands longitudeBands : Z) : list Z :=
  lat ← seqZ 0 latitudeBands;
  lon ← seqZ 0 longitudeBands;
  quad_indices longitudeBands lat lon.

(** Fuel that lets every loop of [generateSphere] run to its end. *)
Definition sphere_fuel (latitudeBands longitudeBands : Z) : nat :=
  (Z.to_nat (Z.max latitudeBands longitudeBands) + 2)%nat.

(** An array whose first [m] slots hold [g 0], ..., [g (m - 1)] and whose
    other slots are as in [d0]. *)
Definition filled {A : Type} (g : Z → A) (d0 : list A) (m : Z) : list A :=
  (g <$> seqZ 0 m) ++ drop (Z.to_nat m) d0.

(** The record that belongs in slot [n] of the instance array. *)
Definition instance_of_slot (numObj_x numObj_y numObj_z : Z)
    (spread sphereScale : float) (n : Z) : InstanceData :=
  let '(i, j, k) := cell_of_index numObj_y numObj_z n in
  instance_at numObj_x numObj_z spread sphereScale i j k.

(** ** Describing a run of [main] *)

(** One of the three checked initialisation steps fails. *)
Definition init_fails (be : Backend) : Prop :=
  glfwInit be = 0 ∨ glfwCreateWindow be = 0 ∨ glewInit be ≠ GLEW_OK.

(** The window is first reported as closing at the start of iteration [k]. *)
Definition window_closes_at (be : Backend) (k : nat) : Prop :=
  (∀ m, (m < k)%nat → glfwWindowShouldClose be m = 0) ∧
  glfwWindowShouldClose be k ≠ 0.

(** Seconds since start in iteration [n]. *)
Definition frame_time (be : Backend) (n : nat) : float :=
  (IZR (glutGet_ELAPSED_TIME be n) / 1000)%R.

(** The camera at time [t] for a camera that started at height [y0]. *)
Definition orbit_position (y0 t : float) : vec3 :=
  move_camera t (Vec3 0 y0 0).

(** The draw call of iteration [n]. *)
Definition frame_draw (be : Backend) (indices : list Z)
    (targetPos upDirection : vec3) (y0 : float) (n : nat) : DrawCall :=
  {| draw_eye := orbit_position y0 (frame_time be n);
     draw_target := targetPos; draw_up := upDirection;
     draw_count := length indices; draw_instancecount := instanceCount |}.

Definition record_draws (ds : list DrawCall) (p : Process) : Process :=
  {| cerr := cerr p; VBO := VBO p; EBO := EBO p;
     instanceVBO := instanceVBO p; draws := draws p ++ ds |}.

(** What one call of [compileShader] writes to the error stream. *)
Definition shader_diagnostic (be : Backend) (type : Z) (source : string)
    : string :=
  if compileStatus be (glCreateShader be type) source =? 0 then
    "Error compiling shader: "
    +:+ glGetShaderInfoLog be (glCreateShader be type) source 512 +:+ endl
  else "".

(** The process after a run of [main] whose window closes at iteration
    [k]. *)
Definition main_process (be : Backend) (k : nat) : Process :=
  {| cerr :=
       shader_diagnostic be GL_VERTEX_SHADER vertexShaderSource
       +:+ shader_diagnostic be GL_FRAGMENT_SHADER fragmentShaderSource;
     VBO := sphere_vertices 4 4;
     EBO := sphere_indices 4 4;
     instanceVBO :=
       take (Z.to_nat instanceCount)
         (buildInstanceData numObj_x numObj_y numObj_z spread 0.33%R);
     draws :=
       frame_draw be (sphere_indices 4 4)
         (Vec3 0 (IZR numObj_y * spread * 0.5) 0) (Vec3 0 0 (-1)) cameraDist
       <$> seq 0 k |}.

(** ** Sample backends *)

(** Everything succeeds and the window is closed in the third iteration. *)
Definition backend_ok : Backend :=
  {| glfwInit := 1; glfwCreateWindow := 4096; glewInit := GLEW_OK;
     glCreateShader := λ type, type - 35631;
     compileStatus := λ _ _, 1;
     shaderInfoLog := λ _ _, "";
     glfwWindowShouldClose := λ n, if decide (n < 2)%nat then 0 else 1;
     glutGet_ELAPSED_TIME := λ n, 16 * Z.of_nat n |}.

(** No window can be created. *)
Definition backend_no_window : Backend :=
  {| glfwInit := 1; glfwCreateWindow := 0; glewInit := GLEW_OK;
     glCreateShader := λ type, type - 35631;
     compileStatus := λ _ _, 1;
     shaderInfoLog := λ _ _, "";
     glfwWindowShouldClose := λ _, 0;
     glutGet_ELAPSED_TIME := λ n, 16 * Z.of_nat n |}.

(** Neither shader compiles; the window is closed in the third
    iteration. *)
Definition backend_bad_shaders : Backend :=
  {| glfwInit := 1; glfwCreateWindow := 4096; glewInit := GLEW_OK;
     glCreateShader := λ type, type - 35631;
     compileStatus := λ _ _, 0;
     shaderInfoLog := λ _ _, "0:1: syntax error";
     glfwWindowShouldClose := λ n, if decide (n < 2)%nat then 0 else 1;
     glutGet_ELAPSED_TIME := λ n, 16 * Z.of_nat n |}.

(** A fuelled computation that no amount of fuel completes. *)
Definition never_returns {A : Type} (run : nat → option A) : Prop :=
  ∀ fuel, run fuel = None.

(** ** The vertex grid behind the index buffer *)

(** The number of the vertex of the pair [(lat, lon)] in the vertex buffer:
    rows of [longitudeBands + 1] vertices. *)
Definition vertex_number (longitudeBands lat lon : Z) : Z :=
  lat * (longitudeBands + 1) + lon.

(** The corners of quad [(lat, lon)] in the order of its two triangles,
    computed without wrap-around. *)
Definition quad_corners (longitudeBands lat lon : Z) : list Z :=
  [vertex_number longitudeBands lat lon;
   vertex_number longitudeBands (lat + 1) lon;
   vertex_number longitudeBands lat (lon + 1);
   vertex_number longitudeBands (lat + 1) lon;
   vertex_number longitudeBands (lat + 1) (lon + 1);
   vertex_number longitudeBands lat (lon + 1)].

(** ** Vectors in space *)

Definition vec3_sub (a b : vec3) : vec3 :=
  Vec3 (vx a - vx b) (vy a - vy b) (vz a - vz b).

(** [glm::cross(a, b)]. *)
Definition vec3_cross (a b : vec3) : vec3 :=
  Vec3 (vy a * vz b - vz a * vy b) (vz a * vx b - vx a * vz b)
    (vx a * vy b - vy a * vx b).

(** The centre of the sphere of lattice cell [(i, j, k)]: the translation
    of its model matrix. *)
Definition instance_centre (numObj_x numObj_z : Z)
    (spread sphereScale : float) (i j k : Z) : vec3 :=
  translation (model (instance_at numObj_x numObj_z spread sphereScale i j k)).

(** ** The shaders

    The two GLSL programs of [vertexShaderSource] and
    [fragmentShaderSource].  GLSL matrices are column major like GLM's; the
    built-in [inverse] is a parameter of the vertex shader. *)
Module glsl.

Record mat3 := Mat3 { m3col0 : vec3; m3col1 : vec3; m3col2 : vec3 }.

(** [vec4(v, w)] and [vec3(v)]. *)
Definition vec4_of (v : vec3) (w : float) : vec4 :=
  Vec4 (vx v) (vy v) (vz v) w.
Definition vec3_of (v : vec4) : vec3 := Vec3 (x4 v) (y4 v) (z4 v).

(** [transpose(m)]. *)
Definition transpose (m : mat4) : mat4 :=
  Mat4 (Vec4 (x4 (col0 m)) (x4 (col1 m)) (x4 (col2 m)) (x4 (col3 m)))
    (Vec4 (y4 (col0 m)) (y4 (col1 m)) (y4 (col2 m)) (y4 (col3 m)))
    (Vec4 (z4 (col0 m)) (z4 (col1 m)) (z4 (col2 m)) (z4 (col3 m)))
    (Vec4 (w4 (col0 m)) (w4 (col1 m)) (w4 (col2 m)) (w4 (col3 m))).

(** [mat3(m)]: the upper-left 3 x 3 block. *)
Definition mat3_of (m : mat4) : mat3 :=
  Mat3 (vec3_of (col0 m)) (vec3_of (col1 m)) (vec3_of (col2 m)).

(** [m * v] for a [mat3]. *)
Definition mat3_mul_vec (m : mat3) (v : vec3) : vec3 :=
  Vec3
    (vx (m3col0 m) * vx v + vx (m3col1 m) * vy v + vx (m3col2 m) * vz v)
    (vy (m3col0 m) * vx v + vy (m3col1 m) * vy v + vy (m3col2 m) * vz v)
    (vz (m3col0 m) * vx v + vz (m3col1 m) * vy v + vz (m3col2 m) * vz v).

End glsl.

(** The outputs of the vertex shader. *)
Record VertexOutputs := {
  FragPos : vec3;
  Normal : vec3;
  Color : vec3;
  gl_Position : vec4
}.

(** [main] of the vertex shader for one vertex of one instance. *)
Definition vertex_shader_main (inverse : mat4 → mat4)
    (view projection : mat4) (aPos aNormal : vec3) (instanceModel : mat4)
    (instanceColor : vec3) : VertexOutputs :=
  let model := instanceModel in
  let FragPos := glsl.vec3_of (glm.mul_vec model (glsl.vec4_of aPos 1)) in
  let Normal :=
    glsl.mat3_mul_vec (glsl.mat3_of (glsl.transpose (inverse model)))
      aNormal in
  let Color := instanceColor in
  let gl_Position :=
    glm.mul_vec (glm.mul projection view) (glsl.vec4_of FragPos 1) in
  {| FragPos := FragPos; Normal := Normal; Color := Color;
     gl_Position := gl_Position |}.

(** [main] of the fragment shader: the value of [FragColor]. *)
Definition fragment_shader_main (FragPos Normal Color : vec3) : vec4 :=
  glsl.vec4_of Color 1.

(** Everything succeeds and the window is never closed. *)
Definition backend_stays_open : Backend :=
  {| glfwInit := 1; glfwCreateWindow := 4096; glewInit := GLEW_OK;
     glCreateShader := λ type, type - 35631;
     compileStatus := λ _ _, 1;
     shaderInfoLog := λ _ _, "";
     glfwWindowShouldClose := λ _, 0;
     glutGet_ELAPSED_TIME := λ n, 16 * Z.of_nat n |}.

(** * Properties *)

(** ** Wrapping arithmetic *)

Lemma uwrap_small z : 0 ≤ z ≤ UINT_MAX → uwrap z = z.
Proof. intros Hz. unfold uwrap, UINT_MAX in *. apply Z.mod_small. lia. Qed.

Lemma uwrap_range z : 0 ≤ uwrap z ≤ UINT_MAX.
Proof.
  unfold uwrap, UINT_MAX.
  pose proof (Z.mod_pos_bound z (4294967295 + 1)). lia.
Qed.

Lemma uwrap_le z : 0 ≤ z → uwrap z ≤ z.
Proof. intros Hz. unfold uwrap, UINT_MAX. apply Z.mod_le; lia. Qed.

(** ** Loops that terminate, and one that does not *)

Lemma for_loop_lt {St : Type} (body : Z → St → option St) (n : Z) :
  n ≤ UINT_MAX →
  ∀ (k : nat) (i : Z) (s : St) (fuel : nat),
    0 ≤ i → i + Z.of_nat k = n → (k < fuel)%nat →
    for_loop fuel (λ x, x <? n) body i s = run_over body (seqZ i (Z.of_nat k)) s.
Proof.
  intros Hn k. induction k as [|k IH]; intros i s fuel Hi Hk Hf.
  - destruct fuel as [|fuel]; [lia|]. simpl.
    replace (i <? n) with false by (symmetry; apply Z.ltb_ge; lia).
    reflexivity.
  - destruct fuel as [|fuel]; [lia|]. simpl for_loop.
    replace (i <? n) with true by (symmetry; apply Z.ltb_lt; lia).
    rewrite seqZ_cons by lia. simpl run_over.
    destruct (body i s) as [s'|]; [|reflexivity].
    unfold uadd. rewrite uwrap_small by lia.
    replace (Z.pred (Z.of_nat (S k))) with (Z.of_nat k) by lia.
    apply IH; lia.
Qed.

Lemma for_loop_le {St : Type} (body : Z → St → option St) (n : Z) :
  n < UINT_MAX →
  ∀ (k : nat) (i : Z) (s : St) (fuel : nat),
    0 ≤ i → i + Z.of_nat k = n + 1 → (k < fuel)%nat →
    for_loop fuel (λ x, x <=? n) body i s
    = run_over body (seqZ i (Z.of_nat k)) s.
Proof.
  intros Hn k. induction k as [|k IH]; intros i s fuel Hi Hk Hf.
  - destruct fuel as [|fuel]; [lia|]. simpl.
    replace (i <=? n) with false by (symmetry; apply Z.leb_gt; lia).
    reflexivity.
  - destruct fuel as [|fuel]; [lia|]. simpl for_loop.
    replace (i <=? n) with true by (symmetry; apply Z.leb_le; lia).
    rewrite seqZ_cons by lia. simpl run_over.
    destruct (body i s) as [s'|]; [|reflexivity].
    unfold uadd. rewrite uwrap_small by lia.
    replace (Z.pred (Z.of_nat (S k))) with (Z.of_nat k) by lia.
    apply IH; lia.
Qed.

Lemma for_loop_lt_0 {St : Type} (body : Z → St → option St) n fuel s :
  0 ≤ n ≤ UINT_MAX → (Z.to_nat n < fuel)%nat →
  for_loop fuel (λ x, x <? n) body 0 s = run_over body (seqZ 0 n) s.
Proof.
  intros Hn Hf.
  rewrite (for_loop_lt body n (proj2 Hn) (Z.to_nat n)) by lia.
  by rewrite Z2Nat.id by lia.
Qed.

Lemma for_loop_le_0 {St : Type} (body : Z → St → option St) n fuel s :
  0 ≤ n < UINT_MAX → (Z.to_nat n + 1 < fuel)%nat →
  for_loop fuel (λ x, x <=? n) body 0 s = run_over body (seqZ 0 (n + 1)) s.
Proof.
  intros Hn Hf.
  rewrite (for_loop_le body n (proj2 Hn) (Z.to_nat (n + 1))) by lia.
  by rewrite Z2Nat.id by lia.
Qed.

(** With the bound at [UINT_MAX] the counter wraps to 0 and the test
    [i <= UINT_MAX] never fails. *)
Lemma for_loop_le_max {St : Type} (body : Z → St → option St) :
  ∀ (fuel : nat) (i : Z) (s : St),
    0 ≤ i ≤ UINT_MAX → for_loop fuel (λ x, x <=? UINT_MAX) body i s = None.
Proof.
  induction fuel as [|fuel IH]; intros i s Hi; [reflexivity|].
  simpl. replace (i <=? UINT_MAX) with true by (symmetry; apply Z.leb_le; lia).
  destruct (body i s) as [s'|]; [|reflexivity].
  apply IH, uwrap_range.
Qed.

Lemma run_over_append {A : Type} (body : Z → list A → option (list A))
    (f : Z → list A) (l : list Z) :
  (∀ i s, body i s = Some (s ++ f i)) →
  ∀ s, run_over body l s = Some (s ++ (l ≫= f)).
Proof.
  intros Hbody. induction l as [|i l IH]; intros s; simpl.
  - by rewrite app_nil_r.
  - rewrite Hbody, IH. by rewrite <- app_assoc.
Qed.

(** ** Lists built from chunks of one size *)

Lemma length_bind_uniform {A B : Type} (f : A → list B) (w : nat)
    (l : list A) :
  (∀ x, length (f x) = w) → length (l ≫= f) = (length l * w)%nat.
Proof.
  intros Hw. induction l as [|x l IH]; [reflexivity|].
  rewrite bind_cons, length_app, Hw, IH. simpl. lia.
Qed.

Lemma lookup_bind_uniform {A B : Type} (f : A → list B) (w : nat)
    (l : list A) :
  (∀ x, length (f x) = w) →
  ∀ (a b : nat) (x : A),
    l !! a = Some x → (b < w)%nat → (l ≫= f) !! (a * w + b)%nat = f x !! b.
Proof.
  intros Hw. induction l as [|y l IH]; intros a b x Ha Hb; [done|].
  rewrite bind_cons. destruct a as [|a]; simpl in Ha.
  - injection Ha as ->. simpl. apply lookup_app_l. by rewrite Hw.
  - rewrite lookup_app_r by (rewrite Hw; simpl; lia).
    rewrite Hw. replace (S a * w + b - w)%nat with (a * w + b)%nat by (simpl; lia).
    by apply IH.
Qed.

(** ** The sphere in closed form *)

Lemma push_vertex_row_run fuel L G lat vertices :
  0 ≤ G < UINT_MAX → (Z.to_nat G + 1 < fuel)%nat →
  push_vertex_row fuel 1 L G lat vertices
  = Some (vertices ++ (seqZ 0 (G + 1) ≫= vertex_floats L G lat)).
Proof.
  intros HG Hf. unfold push_vertex_row.
  rewrite for_loop_le_0 by done.
  by apply run_over_append.
Qed.

Lemma generateVertices_run fuel L G vertices :
  0 ≤ L < UINT_MAX → 0 ≤ G < UINT_MAX → (sphere_fuel L G ≤ fuel)%nat →
  generateVertices fuel 1 L G vertices = Some (vertices ++ sphere_vertices L G).
Proof.
  intros HL HG Hf. unfold sphere_fuel in Hf. unfold generateVertices.
  rewrite for_loop_le_0 by lia.
  apply run_over_append. intros lat s.
  apply push_vertex_row_run; lia.
Qed.

Lemma generateIndices_run fuel L G indices :
  0 ≤ L ≤ UINT_MAX → 0 ≤ G ≤ UINT_MAX → (sphere_fuel L G ≤ fuel)%nat →
  generateIndices fuel L G indices = Some (indices ++ sphere_indices L G).
Proof.
  intros HL HG Hf. unfold sphere_fuel in Hf. unfold generateIndices.
  rewrite for_loop_lt_0 by lia.
  apply run_over_append. intros lat s.
  rewrite for_loop_lt_0 by lia.
  by apply run_over_append.
Qed.

Lemma generateSphere_run fuel vertices indices L G :
  0 ≤ L < UINT_MAX → 0 ≤ G < UINT_MAX → (sphere_fuel L G ≤ fuel)%nat →
  generateSphere fuel vertices indices L G
  = Some (sphere_vertices L G, sphere_indices L G).
Proof.
  intros HL HG Hf. unfold generateSphere, clear.
  rewrite generateVertices_run by done. simpl.
  rewrite generateIndices_run by lia. reflexivity.
Qed.

(** A latitude count of [UINT_MAX] keeps the outer vertex loop running. *)
Lemma generateSphere_lat_max vertices indices G :
  never_returns (λ fuel, generateSphere fuel vertices indices UINT_MAX G).
Proof.
  intros fuel. unfold generateSphere, generateVertices.
  rewrite for_loop_le_max; [reflexivity | unfold UINT_MAX; lia].
Qed.

(** A longitude count of [UINT_MAX] keeps the inner vertex loop running. *)
Lemma generateSphere_lon_max vertices indices L :
  0 ≤ L → never_returns (λ fuel, generateSphere fuel vertices indices L UINT_MAX).
Proof.
  intros HL fuel. unfold generateSphere, generateVertices.
  destruct fuel as [|fuel]; [reflexivity|]. simpl for_loop.
  replace (0 <=? L) with true by (symmetry; apply Z.leb_le; lia).
  unfold push_vertex_row at 1.
  rewrite for_loop_le_max; [reflexivity | unfold UINT_MAX; lia].
Qed.

Lemma length_vertex_floats L G lat lon : length (vertex_floats L G lat lon) = 6%nat.
Proof. reflexivity. Qed.

Lemma length_quad_indices G lat lon : length (quad_indices G lat lon) = 6%nat.
Proof. reflexivity. Qed.

Lemma length_sphere_vertices L G :
  0 ≤ L → 0 ≤ G →
  length (sphere_vertices L G) = (6 * (Z.to_nat (L + 1) * Z.to_nat (G + 1)))%nat.
Proof.
  intros HL HG. unfold sphere_vertices.
  rewrite (length_bind_uniform _ (Z.to_nat (G + 1) * 6)).
  - rewrite length_seqZ. lia.
  - intros lat. rewrite (length_bind_uniform _ 6); [|done].
    by rewrite length_seqZ.
Qed.

Lemma length_sphere_indices L G :
  0 ≤ L → 0 ≤ G →
  length (sphere_indices L G) = (6 * (Z.to_nat L * Z.to_nat G))%nat.
Proof.
  intros HL HG. unfold sphere_indices.
  rewrite (length_bind_uniform _ (Z.to_nat G * 6)).
  - rewrite length_seqZ. lia.
  - intros lat. rewrite (length_bind_uniform _ 6); [|done].
    by rewrite length_seqZ.
Qed.

(** ** Where a vertex lies in the buffer *)

Lemma sphere_vertices_lookup L G lat lon (c : nat) :
  0 ≤ lat ≤ L → 0 ≤ lon ≤ G → (c < 6)%nat →
  sphere_vertices L G !! (6 * Z.to_nat (lat * (G + 1) + lon) + c)%nat
  = vertex_floats L G lat lon !! c.
Proof.
  intros Hlat Hlon Hc. unfold sphere_vertices.
  replace (6 * Z.to_nat (lat * (G + 1) + lon) + c)%nat
    with (Z.to_nat lat * (Z.to_nat (G + 1) * 6) + (Z.to_nat lon * 6 + c))%nat
    by nia.
  rewrite (lookup_bind_uniform _ (Z.to_nat (G + 1) * 6) _) with (x := lat).
  - rewrite (lookup_bind_uniform _ 6 _) with (x := lon); [done|done| |done].
    apply lookup_seqZ. lia.
  - intros x. rewrite (length_bind_uniform _ 6); [|done].
    by rewrite length_seqZ.
  - apply lookup_seqZ. lia.
  - nia.
Qed.

Lemma sphere_vertex_at L G lat lon :
  0 ≤ lat ≤ L → 0 ≤ lon ≤ G →
  vertex_at (sphere_vertices L G) (Z.to_nat (lat * (G + 1) + lon))
  = match vertex_floats L G lat lon with
    | [px; py; pz; nx; ny; nz] =>
        Some {| position := Vec3 px py pz; normal := Vec3 nx ny nz |}
    | _ => None
    end.
Proof.
  intros Hlat Hlon. unfold vertex_at.
  pose proof (sphere_vertices_lookup L G lat lon 0 Hlat Hlon) as H0.
  rewrite Nat.add_0_r in H0.
  rewrite H0 by lia.
  rewrite !sphere_vertices_lookup by (done || lia).
  reflexivity.
Qed.

Lemma unit_sphere_point (theta phi : R) :
  glm.length (Vec3 (sin theta * cos phi) (cos theta) (sin theta * sin phi)) = 1%R.
Proof.
  unfold glm.length. simpl.
  pose proof (sin2_cos2 theta) as Ht. pose proof (sin2_cos2 phi) as Hp.
  unfold Rsqr in Ht, Hp.
  replace (sin theta * cos phi * (sin theta * cos phi) + cos theta * cos theta
           + sin theta * sin phi * (sin theta * sin phi))%R with 1%R by nra.
  apply sqrt_1.
Qed.

(** ** Every index names a vertex *)

Lemma quad_indices_bound L G lat lon x :
  1 ≤ L → 1 ≤ G → 0 ≤ lat < L → 0 ≤ lon < G →
  x ∈ quad_indices G lat lon → 0 ≤ x < (L + 1) * (G + 1).
Proof.
  intros HL HG Hlat Hlon Hx. unfold quad_indices in Hx.
  set (g1 := uadd G 1) in *.
  set (m := umul lat g1) in *.
  set (first := uadd m lon) in *.
  set (fg := uadd first G) in *.
  set (second := uadd fg 1) in *.
  assert (0 ≤ g1 ≤ G + 1) as Hg1.
  { split; [apply uwrap_range | apply uwrap_le; lia]. }
  assert (0 ≤ m ≤ lat * (G + 1)) as Hm.
  { split; [apply uwrap_range|].
    etrans; [apply uwrap_le; nia | nia]. }
  assert (0 ≤ first ≤ lat * (G + 1) + lon) as Hfirst.
  { split; [apply uwrap_range|]. etrans; [apply uwrap_le; lia | lia]. }
  assert (0 ≤ fg ≤ first + G) as Hfg.
  { split; [apply uwrap_range | apply uwrap_le; lia]. }
  assert (0 ≤ second ≤ fg + 1) as Hsecond.
  { split; [apply uwrap_range | apply uwrap_le; lia]. }
  assert (0 ≤ uadd first 1 ≤ first + 1) as Hf1.
  { split; [apply uwrap_range | apply uwrap_le; lia]. }
  assert (0 ≤ uadd second 1 ≤ second + 1) as Hs1.
  { split; [apply uwrap_range | apply uwrap_le; lia]. }
  assert (lat * (G + 1) + lon + G + 2 < (L + 1) * (G + 1)) by nia.
  repeat (apply elem_of_cons in Hx as [-> | Hx]); try lia.
  by apply elem_of_nil in Hx.
Qed.

Lemma sphere_indices_bound L G x :
  1 ≤ L → 1 ≤ G → x ∈ sphere_indices L G → 0 ≤ x < (L + 1) * (G + 1).
Proof.
  intros HL HG Hx. unfold sphere_indices in Hx.
  apply list_elem_of_bind in Hx as (lat & Hx & Hlat).
  apply list_elem_of_bind in Hx as (lon & Hx & Hlon).
  apply elem_of_seqZ in Hlat, Hlon.
  apply (quad_indices_bound L G lat lon); (done || lia).
Qed.

Lemma generateSphere_returns_bands fuel vertices0 indices0 L G r :
  0 ≤ L ≤ UINT_MAX → 0 ≤ G ≤ UINT_MAX →
  generateSphere fuel vertices0 indices0 L G = Some r →
  L < UINT_MAX ∧ G < UINT_MAX.
Proof.
  intros HL HG Hr.
  destruct (decide (L = UINT_MAX)) as [->|].
  { by rewrite generateSphere_lat_max in Hr. }
  destruct (decide (G = UINT_MAX)) as [->|].
  { rewrite (generateSphere_lon_max vertices0 indices0 L) in Hr by lia. done. }
  lia.
Qed.

(** ** The claims about generateSphere *)

(** C1 (as amended).  For latitude and longitude band counts from 1 to
    [UINT_MAX - 1], [generateSphere] returns, and the vertex of the pair
    [(lat, lon)] is vertex number [lat * (G + 1) + lon] of the buffer
    (latitude major, longitude minor); its position is
    [(sin theta * cos phi, cos theta, sin theta * sin phi)] with
    [theta = lat * PI / L] and [phi = lon * 2 * PI / G], its normal is its
    position, and the position has length 1 (in exact arithmetic). *)
Theorem generateSphere_vertices_on_unit_sphere
    (L G : Z) (fuel : nat) (vertices0 : list float) (indices0 : list Z) :
  1 ≤ L < UINT_MAX → 1 ≤ G < UINT_MAX → (sphere_fuel L G ≤ fuel)%nat →
  ∃ vertices indices,
    generateSphere fuel vertices0 indices0 L G = Some (vertices, indices) ∧
    ∀ lat lon, 0 ≤ lat ≤ L → 0 ≤ lon ≤ G →
      let theta := (IZR lat * PI / IZR L)%R in
      let phi := (IZR lon * 2 * PI / IZR G)%R in
      let pos :=
        Vec3 (sin theta * cos phi) (cos theta) (sin theta * sin phi) in
      vertex_at vertices (Z.to_nat (lat * (G + 1) + lon))
      = Some {| position := pos; normal := pos |}
      ∧ glm.length pos = 1%R.
Proof.
  intros HL HG Hf. exists (sphere_vertices L G), (sphere_indices L G).
  split; [apply generateSphere_run; lia|].
  intros lat lon Hlat Hlon theta phi pos. split.
  - rewrite sphere_vertex_at by done. unfold vertex_floats, pos.
    fold theta. fold phi.
    f_equal. f_equal; f_equal; ring.
  - apply unit_sphere_point.
Qed.

Lemma generateSphere_vertices_on_unit_sphere_witness :
  ∃ vertices indices,
    generateSphere 6 [] [] 4 4 = Some (vertices, indices) ∧
    vertex_at vertices 7
    = Some {| position :=
                Vec3 (sin (1 * PI / 4) * cos (2 * 2 * PI / 4)) (cos (1 * PI / 4))
                  (sin (1 * PI / 4) * sin (2 * 2 * PI / 4));
              normal :=
                Vec3 (sin (1 * PI / 4) * cos (2 * 2 * PI / 4)) (cos (1 * PI / 4))
                  (sin (1 * PI / 4) * sin (2 * 2 * PI / 4)) |}.
Proof.
  destruct (generateSphere_vertices_on_unit_sphere 4 4 6 [] [])
    as (vertices & indices & Hrun & Hv);
    [unfold UINT_MAX; lia | unfold UINT_MAX; lia | vm_compute; lia |].
  exists vertices, indices. split; [exact Hrun|].
  exact (proj1 (Hv 1 2 ltac:(lia) ltac:(lia))).
Defined.

(** C1 as stated fails for a longitude band count of [UINT_MAX]: the inner
    vertex loop tests [lon <= UINT_MAX], which no [unsigned int] fails. *)
Lemma generateSphere_vertices_lon_max_diverges :
  1 ≤ 1 ∧ 1 ≤ 4294967295 ≤ UINT_MAX ∧
  never_returns (λ fuel, generateSphere fuel [] [] 1 4294967295).
Proof.
  split; [lia|]. split; [unfold UINT_MAX; lia|].
  apply (generateSphere_lon_max [] [] 1). lia.
Qed.

(** C2 (as amended).  For band counts from 1 to [UINT_MAX - 1],
    [generateSphere] returns [(L + 1) * (G + 1)] vertices (six floats each)
    and [6 * L * G] indices, that is [2 * L * G] triangles; for [L = G = 4]
    that is 25 vertices and 96 indices. *)
Theorem generateSphere_counts
    (L G : Z) (fuel : nat) (vertices0 : list float) (indices0 : list Z) :
  1 ≤ L < UINT_MAX → 1 ≤ G < UINT_MAX → (sphere_fuel L G ≤ fuel)%nat →
  ∃ vertices indices,
    generateSphere fuel vertices0 indices0 L G = Some (vertices, indices) ∧
    Z.of_nat (length vertices) = 6 * ((L + 1) * (G + 1)) ∧
    Z.of_nat (vertex_count vertices) = (L + 1) * (G + 1) ∧
    Z.of_nat (length indices) = 6 * L * G ∧
    Z.of_nat (triangle_count indices) = 2 * L * G.
Proof.
  intros HL HG Hf. exists (sphere_vertices L G), (sphere_indices L G).
  split; [apply generateSphere_run; lia|].
  unfold vertex_count, triangle_count.
  rewrite length_sphere_vertices, length_sphere_indices by lia.
  split; [nia|]. split; [|split; [nia|]].
  - rewrite Nat.mul_comm, Nat.div_mul by done. nia.
  - replace (6 * (Z.to_nat L * Z.to_nat G))%nat
      with (2 * (Z.to_nat L * Z.to_nat G) * 3)%nat by lia.
    rewrite Nat.div_mul by done. nia.
Qed.

Lemma generateSphere_counts_witness :
  ∃ vertices indices,
    generateSphere 6 [] [] 4 4 = Some (vertices, indices) ∧
    Z.of_nat (length vertices) = 150 ∧
    Z.of_nat (vertex_count vertices) = 25 ∧
    Z.of_nat (length indices) = 96 ∧
    Z.of_nat (triangle_count indices) = 32.
Proof.
  apply (generateSphere_counts 4 4 6 [] []);
    [unfold UINT_MAX; lia | unfold UINT_MAX; lia | vm_compute; lia].
Defined.

(** C2 as stated fails for a latitude band count of [UINT_MAX]: the outer
    vertex loop tests [lat <= UINT_MAX] and never ends, so no buffer of any
    size is returned. *)
Lemma generateSphere_counts_lat_max_diverges :
  1 ≤ 4294967295 ≤ UINT_MAX ∧ 1 ≤ 1 ∧
  never_returns (λ fuel, generateSphere fuel [] [] 4294967295 1).
Proof.
  split; [unfold UINT_MAX; lia|]. split; [lia|].
  apply (generateSphere_lat_max [] [] 1).
Qed.

(** C3.  For all band counts [L >= 1] and [G >= 1] of type [unsigned int],
    the index pass returns, and every index it emits is below the vertex
    count [(L + 1) * (G + 1)]; whenever [generateSphere] as a whole returns,
    its index buffer is the one of the index pass and every index in it is
    below the number of vertices in its vertex buffer. *)
Theorem generateSphere_indices_below_vertex_count (L G : Z) (fuel : nat) :
  1 ≤ L ≤ UINT_MAX → 1 ≤ G ≤ UINT_MAX → (sphere_fuel L G ≤ fuel)%nat →
  ∃ indices,
    generateIndices fuel L G [] = Some indices ∧
    (∀ x, x ∈ indices → 0 ≤ x < (L + 1) * (G + 1)) ∧
    ∀ vertices0 indices0 vertices indices',
      generateSphere fuel vertices0 indices0 L G = Some (vertices, indices') →
      indices' = indices ∧
      ∀ x, x ∈ indices' → 0 ≤ x < Z.of_nat (vertex_count vertices).
Proof.
  intros HL HG Hf. exists (sphere_indices L G).
  split; [by rewrite generateIndices_run by lia|].
  split; [intros x; apply sphere_indices_bound; lia|].
  intros vertices0 indices0 vertices indices' Hrun.
  destruct (generateSphere_returns_bands fuel vertices0 indices0 L G
              (vertices, indices')) as [HL' HG']; [lia | lia | done |].
  rewrite generateSphere_run in Hrun by lia.
  injection Hrun as <- <-. split; [done|].
  intros x Hx. unfold vertex_count.
  rewrite length_sphere_vertices by lia.
  rewrite Nat.mul_comm, Nat.div_mul by done.
  pose proof (sphere_indices_bound L G x ltac:(lia) ltac:(lia) Hx). nia.
Qed.

Lemma generateSphere_indices_below_vertex_count_witness :
  ∃ indices,
    generateIndices 6 4 4 [] = Some indices ∧
    ∀ x, x ∈ indices → 0 ≤ x < 25.
Proof.
  destruct (generateSphere_indices_below_vertex_count 4 4 6)
    as (indices & Hrun & Hbound & _);
    [unfold UINT_MAX; lia | unfold UINT_MAX; lia | vm_compute; lia |].
  exists indices. split; [exact Hrun | exact Hbound].
Defined.

(** C10.  [generateSphere] clears both vectors first: its outcome is the
    same whatever they held before the call, and is the outcome of a call
    on two empty vectors; the two passes by themselves append to what they
    are given, and when the call returns, its buffers are the closed forms
    [sphere_vertices L G] and [sphere_indices L G], functions of the band
    counts alone. *)
Theorem generateSphere_ignores_prior_contents
    (fuel : nat) (L G : Z) (vertices1 vertices2 : list float)
    (indices1 indices2 : list Z) :
  generateSphere fuel vertices1 indices1 L G
  = generateSphere fuel vertices2 indices2 L G ∧
  generateSphere fuel vertices1 indices1 L G = generateSphere fuel [] [] L G ∧
  (0 ≤ L < UINT_MAX → 0 ≤ G < UINT_MAX → (sphere_fuel L G ≤ fuel)%nat →
   generateVertices fuel 1 L G vertices1
   = Some (vertices1 ++ sphere_vertices L G) ∧
   generateIndices fuel L G indices1 = Some (indices1 ++ sphere_indices L G) ∧
   generateSphere fuel vertices1 indices1 L G
   = Some (sphere_vertices L G, sphere_indices L G)).
Proof.
  split; [reflexivity|]. split; [reflexivity|]. intros HL HG Hf.
  split; [by apply generateVertices_run|].
  split; [apply generateIndices_run; lia | by apply generateSphere_run].
Qed.

Lemma generateSphere_ignores_prior_contents_witness :
  generateSphere 6 [1%R; 2%R] [7; 8; 9] 4 4 = generateSphere 6 [] [] 4 4 ∧
  generateSphere 6 [1%R; 2%R] [7; 8; 9] 4 4
  = Some (sphere_vertices 4 4, sphere_indices 4 4).
Proof.
  pose proof (generateSphere_ignores_prior_contents 6 4 4 [1%R; 2%R] []
                [7; 8; 9] []) as (_ & Hclear & Hrun).
  split; [exact Hclear|].
  apply Hrun; [unfold UINT_MAX; lia | unfold UINT_MAX; lia | vm_compute; lia].
Defined.

(** ** Linearisation of the lattice *)

Section Linearisation.

Variables Nx Ny Nz : Z.
Hypothesis HNy : 0 < Ny.
Hypothesis HNz : 0 < Nz.

Lemma linear_index_range i j k :
  in_lattice Nx Ny Nz (i, j, k) → 0 ≤ linear_index Ny Nz i j k < Nx * Ny * Nz.
Proof.
  unfold in_lattice, linear_index. intros (Hi & Hj & Hk).
  assert (0 < Ny * Nz) by nia.
  assert (0 ≤ i * (Ny * Nz) ≤ (Nx - 1) * (Ny * Nz)) by nia.
  assert (0 ≤ j * Nz ≤ (Ny - 1) * Nz) by nia.
  lia.
Qed.

Lemma cell_of_linear_index i j k :
  0 ≤ j < Ny → 0 ≤ k < Nz →
  cell_of_index Ny Nz (linear_index Ny Nz i j k) = (i, j, k).
Proof.
  intros Hj Hk. unfold cell_of_index, linear_index.
  assert (0 ≤ j * Nz + k < Ny * Nz) as Hjk.
  { split; [nia|]. assert (j * Nz ≤ (Ny - 1) * Nz) by nia. lia. }
  assert ((i * (Ny * Nz) + j * Nz + k) `div` (Ny * Nz) = i) as ->.
  { symmetry. apply (Z.div_unique_pos _ _ _ (j * Nz + k)); [done | lia]. }
  assert ((i * (Ny * Nz) + j * Nz + k) `div` Nz = i * Ny + j) as ->.
  { symmetry. apply (Z.div_unique_pos _ _ _ k); [done | lia]. }
  assert ((i * Ny + j) `mod` Ny = j) as ->.
  { symmetry. apply (Z.mod_unique_pos _ _ i); [done | lia]. }
  assert ((i * (Ny * Nz) + j * Nz + k) `mod` Nz = k) as ->.
  { symmetry. apply (Z.mod_unique_pos _ _ (i * Ny + j)); [done | lia]. }
  reflexivity.
Qed.

Lemma linear_index_of_cell n :
  0 ≤ n < Nx * Ny * Nz →
  in_lattice Nx Ny Nz (cell_of_index Ny Nz n) ∧
  (let '(i, j, k) := cell_of_index Ny Nz n in linear_index Ny Nz i j k) = n.
Proof.
  intros Hn. unfold cell_of_index, in_lattice, linear_index.
  replace (n / (Ny * Nz)) with (n / Nz / Ny)
    by (rewrite Z.div_div by lia; f_equal; lia).
  pose proof (Z.div_mod n Nz ltac:(lia)) as Hq.
  pose proof (Z.mod_pos_bound n Nz HNz) as Hk.
  set (q := n `div` Nz) in *.
  pose proof (Z.div_mod q Ny ltac:(lia)) as Hp.
  pose proof (Z.mod_pos_bound q Ny HNy) as Hj.
  assert (0 ≤ q) by (apply Z.div_pos; lia).
  assert (0 ≤ q `div` Ny) by (apply Z.div_pos; lia).
  assert (q < Ny * Nx) by nia.
  assert (q `div` Ny < Nx) by (apply Z.div_lt_upper_bound; lia).
  split; [lia | nia].
Qed.

End Linearisation.

(** For the extents of the program every index computed in the loops, and
    every intermediate product, is far inside the range of [int]. *)
Lemma linear_index_fits_int i j k :
  in_lattice numObj_x numObj_y numObj_z (i, j, k) →
  0 ≤ i * (numObj_y * numObj_z) < 2 ^ 31 ∧ 0 ≤ j * numObj_z < 2 ^ 31 ∧
  0 ≤ linear_index numObj_y numObj_z i j k < 2 ^ 31.
Proof.
  unfold in_lattice, linear_index, numObj_x, numObj_y, numObj_z. lia.
Qed.

(** ** Filling an array slot by slot *)

Section Filling.

Context {A : Type}.
Variable g : Z → A.
Variable d0 : list A.

Lemma filled_step (m : Z) :
  0 ≤ m → (Z.to_nat m < length d0)%nat →
  <[Z.to_nat m := g m]> (filled g d0 m) = filled g d0 (m + 1).
Proof.
  intros Hm Hlen. unfold filled.
  destruct (lookup_lt_is_Some_2 d0 (Z.to_nat m) Hlen) as [y Hy].
  rewrite insert_app_r_alt by (rewrite length_fmap, length_seqZ; lia).
  rewrite length_fmap, length_seqZ, Nat.sub_diag.
  rewrite (drop_S _ _ _ Hy). simpl.
  rewrite seqZ_app by lia. rewrite fmap_app, <- app_assoc. simpl.
  by replace (Z.to_nat (m + 1)) with (S (Z.to_nat m)) by lia.
Qed.

(** A loop whose [j]-th iteration takes the array from [base + j * w]
    filled slots to [base + (j + 1) * w] filled slots. *)
Lemma foldl_advance (body : Z → list A → list A) (base w : Z) :
  ∀ n : nat,
    (∀ j, 0 ≤ j < Z.of_nat n →
       body j (filled g d0 (base + j * w)) = filled g d0 (base + (j + 1) * w)) →
    foldl (λ d j, body j d) (filled g d0 base) (seqZ 0 (Z.of_nat n))
    = filled g d0 (base + Z.of_nat n * w).
Proof.
  induction n as [|n IH]; intros Hbody.
  - simpl. f_equal. lia.
  - rewrite seqZ_S, foldl_snoc, IH by (intros; apply Hbody; lia).
    rewrite Z.add_0_l, Hbody by lia. f_equal. lia.
Qed.

End Filling.

Lemma filled_0 {A : Type} (g : Z → A) (d0 : list A) : filled g d0 0 = d0.
Proof. reflexivity. Qed.

Lemma filled_all {A : Type} (g : Z → A) (d0 : list A) (m : Z) :
  (length d0 ≤ Z.to_nat m)%nat → filled g d0 m = g <$> seqZ 0 m.
Proof.
  intros Hm. unfold filled. rewrite drop_ge by done. apply app_nil_r.
Qed.

Lemma foldl_advance_Z {A : Type} (g : Z → A) (d0 : list A)
    (body : Z → list A → list A) (base w n target : Z) :
  0 ≤ n → target = base + n * w →
  (∀ j, 0 ≤ j < n →
     body j (filled g d0 (base + j * w)) = filled g d0 (base + (j + 1) * w)) →
  foldl (λ d j, body j d) (filled g d0 base) (seqZ 0 n) = filled g d0 target.
Proof.
  intros Hn -> Hbody. rewrite <- (Z2Nat.id n) at 1 by done.
  rewrite (foldl_advance g d0 body base w) by (intros; apply Hbody; lia).
  by rewrite Z2Nat.id.
Qed.

(** ** The instance array in closed form *)

Section GridArray.

Variables Nx Ny Nz : Z.
Variables spread sphereScale : float.
Hypothesis HNx : 0 ≤ Nx.
Hypothesis HNy : 0 < Ny.
Hypothesis HNz : 0 < Nz.

Let slot := instance_of_slot Nx Ny Nz spread sphereScale.

Lemma fillInstanceData_filled (d0 : list InstanceData) :
  (Z.to_nat (Nx * Ny * Nz) ≤ length d0)%nat →
  fillInstanceData Nx Ny Nz spread sphereScale d0
  = filled slot d0 (Nx * Ny * Nz).
Proof.
  intros Hlen. unfold fillInstanceData.
  rewrite <- (filled_0 slot d0) at 1.
  apply (foldl_advance_Z slot d0
           (λ i d, foldl (λ d j, foldl (λ d k,
              store_instance Nx Ny Nz spread sphereScale i j k d)
              d (seqZ 0 Nz)) d (seqZ 0 Ny)) 0 (Ny * Nz)); [done | lia |].
  intros i Hi.
  apply (foldl_advance_Z slot d0
           (λ j d, foldl (λ d k,
              store_instance Nx Ny Nz spread sphereScale i j k d)
              d (seqZ 0 Nz)) (0 + i * (Ny * Nz)) Nz); [lia | lia |].
  intros j Hj.
  apply (foldl_advance_Z slot d0
           (λ k d, store_instance Nx Ny Nz spread sphereScale i j k d)
           (0 + i * (Ny * Nz) + j * Nz) 1); [lia | lia |].
  intros k Hk. unfold store_instance.
  pose proof (linear_index_range Nx Ny Nz HNy HNz i j k
                ltac:(unfold in_lattice; lia)) as Hrange.
  replace (0 + i * (Ny * Nz) + j * Nz + k * 1) with (linear_index Ny Nz i j k)
    by (unfold linear_index; lia).
  replace (0 + i * (Ny * Nz) + j * Nz + (k + 1) * 1)
    with (linear_index Ny Nz i j k + 1) by (unfold linear_index; lia).
  replace (instance_at Nx Nz spread sphereScale i j k)
    with (slot (linear_index Ny Nz i j k)).
  - apply filled_step; lia.
  - unfold slot, instance_of_slot. by rewrite cell_of_linear_index by lia.
Qed.

Lemma buildInstanceData_slots :
  buildInstanceData Nx Ny Nz spread sphereScale
  = slot <$> seqZ 0 (Nx * Ny * Nz).
Proof.
  unfold buildInstanceData.
  rewrite fillInstanceData_filled by (rewrite length_replicate; lia).
  apply filled_all. rewrite length_replicate. lia.
Qed.

Lemma length_buildInstanceData :
  length (buildInstanceData Nx Ny Nz spread sphereScale)
  = Z.to_nat (Nx * Ny * Nz).
Proof. by rewrite buildInstanceData_slots, length_fmap, length_seqZ. Qed.

Lemma buildInstanceData_lookup i j k :
  in_lattice Nx Ny Nz (i, j, k) →
  buildInstanceData Nx Ny Nz spread sphereScale
    !! Z.to_nat (linear_index Ny Nz i j k)
  = Some (instance_at Nx Nz spread sphereScale i j k).
Proof.
  intros Hc. pose proof (linear_index_range Nx Ny Nz HNy HNz i j k Hc) as Hr.
  rewrite buildInstanceData_slots, list_lookup_fmap.
  assert (seqZ 0 (Nx * Ny * Nz) !! Z.to_nat (linear_index Ny Nz i j k)
          = Some (linear_index Ny Nz i j k)) as ->.
  { apply lookup_seqZ. lia. }
  simpl. unfold slot, instance_of_slot.
  unfold in_lattice in Hc. by rewrite cell_of_linear_index by lia.
Qed.

End GridArray.

(** ** The order in which the loops assign the slots *)







Lemma elem_of_lattice Nx Ny Nz c :
  c ∈ lattice Nx Ny Nz ↔ in_lattice Nx Ny Nz c.
Proof.
  destruct c as [[i j] k]. unfold lattice, in_lattice. split.
  - intros Hc.
    apply list_elem_of_bind in Hc as (i' & Hc & Hi).
    apply list_elem_of_bind in Hc as (j' & Hc & Hj).
    apply list_elem_of_bind in Hc as (k' & Hc & Hk).
    apply list_elem_of_singleton in Hc. injection Hc as -> -> ->.
    apply elem_of_seqZ in Hi, Hj, Hk. lia.
  - intros (Hi & Hj & Hk).
    apply list_elem_of_bind. exists i. split; [|apply elem_of_seqZ; lia].
    apply list_elem_of_bind. exists j. split; [|apply elem_of_seqZ; lia].
    apply list_elem_of_bind. exists k. split; [|apply elem_of_seqZ; lia].
    by apply list_elem_of_singleton.
Qed.

(** ** Runs of main *)

Lemma init_fails_dec (be : Backend) : Decision (init_fails be).
Proof. unfold init_fails. apply _. Qed.

Lemma write_cerr_empty p : write_cerr "" p = p.
Proof.
  destruct p. unfold write_cerr. simpl. f_equal.
  induction cerr0 as [|c s IH]; [done|].
  change (String c (s +:+ "") = String c s). by rewrite IH.
Qed.

Lemma compileShader_diagnostic be type source p :
  compileShader be type source p
  = (glCreateShader be type, write_cerr (shader_diagnostic be type source) p).
Proof.
  unfold compileShader, shader_diagnostic.
  destruct (compileStatus be (glCreateShader be type) source =? 0);
    [reflexivity | by rewrite write_cerr_empty].
Qed.

Lemma move_camera_orbit t pos : move_camera t pos = orbit_position (vy pos) t.
Proof. reflexivity. Qed.

Lemma record_draws_nil p : record_draws [] p = p.
Proof. destruct p. unfold record_draws. simpl. by rewrite app_nil_r. Qed.

Lemma record_draws_cons d ds p :
  record_draws ds (record_draw d p) = record_draws (d :: ds) p.
Proof. unfold record_draws, record_draw. simpl. by rewrite <- app_assoc. Qed.

Lemma render_loop_run be indices targetPos upDirection :
  ∀ (k n fuel : nat) (cameraPos : vec3) (p : Process),
    (∀ m, (n ≤ m < n + k)%nat → glfwWindowShouldClose be m = 0) →
    glfwWindowShouldClose be (n + k) ≠ 0 → (k < fuel)%nat →
    render_loop fuel be n indices targetPos upDirection cameraPos p
    = Some (record_draws
              (frame_draw be indices targetPos upDirection (vy cameraPos)
               <$> seq n k) p).
Proof.
  induction k as [|k IH]; intros n fuel cameraPos p Hopen Hclose Hf;
    (destruct fuel as [|fuel]; [lia|]); simpl render_loop.
  - rewrite Nat.add_0_r in Hclose.
    apply Z.eqb_neq in Hclose. rewrite Hclose.
    by rewrite record_draws_nil.
  - rewrite (Hopen n) by lia. simpl.
    rewrite IH; [|intros; apply Hopen; lia
                 |by replace (S n + k)%nat with (n + S k)%nat by lia|lia].
    by rewrite record_draws_cons.
Qed.

Lemma render_loop_inv be indices targetPos upDirection :
  ∀ (fuel n : nat) (cameraPos : vec3) (p p' : Process),
    render_loop fuel be n indices targetPos upDirection cameraPos p = Some p' →
    ∃ k, (k < fuel)%nat ∧
         (∀ m, (n ≤ m < n + k)%nat → glfwWindowShouldClose be m = 0) ∧
         glfwWindowShouldClose be (n + k) ≠ 0 ∧
         p' = record_draws
                (frame_draw be indices targetPos upDirection (vy cameraPos)
                 <$> seq n k) p.
Proof.
  induction fuel as [|fuel IH]; intros n cameraPos p p' Hrun; [done|].
  simpl in Hrun.
  destruct (glfwWindowShouldClose be n =? 0) eqn:Hn.
  - apply IH in Hrun as (k & Hk & Hopen & Hclose & ->). exists (S k).
    apply Z.eqb_eq in Hn. split; [lia|]. split; [|split].
    + intros m Hm. destruct (decide (m = n)) as [->|]; [done|].
      apply Hopen. lia.
    + by replace (n + S k)%nat with (S n + k)%nat by lia.
    + by rewrite record_draws_cons.
  - injection Hrun as <-. exists 0%nat. apply Z.eqb_neq in Hn.
    split; [lia|]. split; [intros; lia|]. split; [by rewrite Nat.add_0_r|].
    by rewrite record_draws_nil.
Qed.

Lemma main_init_fails be fuel :
  init_fails be → main fuel be = Some (-1, Process_start).
Proof.
  unfold init_fails, main. intros Hfail.
  destruct (glfwInit be =? 0) eqn:H1; [done|].
  destruct (glfwCreateWindow be =? 0) eqn:H2; [done|].
  destruct (glewInit be =? GLEW_OK) eqn:H3; [|done].
  apply Z.eqb_neq in H1, H2. apply Z.eqb_eq in H3.
  exfalso. destruct Hfail as [?|[?|?]]; contradiction.
Qed.

Lemma main_init_ok be fuel :
  ¬ init_fails be → (6 ≤ fuel)%nat →
  main fuel be
  = p ← render_loop fuel be 0 (sphere_indices 4 4)
         (Vec3 0 (IZR numObj_y * spread * 0.5) 0) (Vec3 0 0 (-1))
         (Vec3 (camSpead2 * cameraDist) cameraDist (camSpead2 * cameraDist))
         (main_process be 0);
    Some (0, p).
Proof.
  unfold init_fails, main. intros Hok Hf.
  destruct (glfwInit be =? 0) eqn:H1;
    [apply Z.eqb_eq in H1; exfalso; apply Hok; by left|].
  destruct (glfwCreateWindow be =? 0) eqn:H2;
    [apply Z.eqb_eq in H2; exfalso; apply Hok; right; by left|].
  destruct (glewInit be =? GLEW_OK) eqn:H3;
    [|apply Z.eqb_neq in H3; exfalso; apply Hok; right; by right].
  assert (sphere_fuel 4 4 ≤ fuel)%nat as Hfuel by (vm_compute; lia).
  rewrite generateSphere_run by (done || unfold UINT_MAX; lia).
  cbv beta iota zeta delta [mbind option_bind negb].
  rewrite !compileShader_diagnostic.
  reflexivity.
Qed.

Lemma for_loop_le_out_of_fuel {St : Type} (body : Z → St → option St) (n : Z) :
  n < UINT_MAX →
  ∀ (fuel : nat) (i : Z) (s : St),
    0 ≤ i ≤ n + 1 → (fuel ≤ Z.to_nat (n + 1 - i))%nat →
    for_loop fuel (λ x, x <=? n) body i s = None.
Proof.
  intros Hn. induction fuel as [|fuel IH]; intros i s Hi Hf; [reflexivity|].
  simpl. replace (i <=? n) with true by (symmetry; apply Z.leb_le; lia).
  destruct (body i s) as [s'|]; [|reflexivity].
  unfold uadd. rewrite uwrap_small by lia. apply IH; lia.
Qed.

Lemma generateSphere_fuel fuel vertices0 indices0 L G r :
  0 ≤ L < UINT_MAX →
  generateSphere fuel vertices0 indices0 L G = Some r →
  (Z.to_nat L + 2 ≤ fuel)%nat.
Proof.
  intros HL Hr. destruct (decide (Z.to_nat L + 2 ≤ fuel)%nat); [done|].
  unfold generateSphere, generateVertices in Hr.
  rewrite for_loop_le_out_of_fuel in Hr by lia. done.
Qed.

Lemma main_run be k fuel :
  ¬ init_fails be → window_closes_at be k → (6 ≤ fuel)%nat → (k < fuel)%nat →
  main fuel be = Some (0, main_process be k).
Proof.
  intros Hok [Hopen Hclose] Hf Hk.
  rewrite main_init_ok by done.
  rewrite (render_loop_run be _ _ _ k) by (done || intros; apply Hopen; lia).
  reflexivity.
Qed.

Lemma main_out_of_fuel be fuel :
  ¬ init_fails be → (fuel < 6)%nat → main fuel be = None.
Proof.
  unfold init_fails, main. intros Hok Hf.
  destruct (glfwInit be =? 0) eqn:H1;
    [apply Z.eqb_eq in H1; exfalso; apply Hok; by left|].
  destruct (glfwCreateWindow be =? 0) eqn:H2;
    [apply Z.eqb_eq in H2; exfalso; apply Hok; right; by left|].
  destruct (glewInit be =? GLEW_OK) eqn:H3;
    [|apply Z.eqb_neq in H3; exfalso; apply Hok; right; by right].
  destruct (generateSphere fuel [] [] 4 4) as [r|] eqn:Hr; [|reflexivity].
  apply generateSphere_fuel in Hr; [|unfold UINT_MAX; lia].
  change (Z.to_nat 4) with 4%nat in Hr. lia.
Qed.

Lemma main_inv be fuel code p :
  main fuel be = Some (code, p) →
  (init_fails be ∧ code = -1 ∧ p = Process_start) ∨
  (¬ init_fails be ∧ code = 0 ∧
   ∃ k, window_closes_at be k ∧ (k < fuel)%nat ∧ p = main_process be k).
Proof.
  intros Hrun. destruct (init_fails_dec be) as [Hfail|Hok].
  - left. rewrite main_init_fails in Hrun by done.
    injection Hrun as <- <-. done.
  - right. destruct (decide (fuel < 6)%nat) as [Hlow|Hf].
    { by rewrite main_out_of_fuel in Hrun. }
    rewrite main_init_ok in Hrun by (done || lia).
    destruct (render_loop fuel be 0 _ _ _ _ _) as [p'|] eqn:Hloop; [|done].
    injection Hrun as <- <-.
    apply render_loop_inv in Hloop as (k & Hk & Hopen & Hclose & ->).
    split; [done|]. split; [done|]. exists k.
    split; [split; [intros; apply Hopen; lia | done]|].
    split; [done | reflexivity].
Qed.

(** ** The claims about the instance grid *)

Lemma instance_at_model Nx Nz spread sphereScale i j k :
  let x := (- (IZR Nx / 2) * spread + spread * IZR i)%R in
  let y := (spread * IZR j + spread)%R in
  let z := (- (IZR Nz / 2) * spread + spread * IZR k)%R in
  model (instance_at Nx Nz spread sphereScale i j k)
  = Mat4 (Vec4 sphereScale 0 0 0) (Vec4 0 sphereScale 0 0)
      (Vec4 0 0 sphereScale 0) (Vec4 x y z 1).
Proof.
  intros x y z. unfold instance_at, glm.scale, glm.translate, glm.diag,
    glm.splat, glm.vec4_scale, glm.vec4_add. cbn [model col0 col1 col2 col3
    x4 y4 z4 w4 vx vy vz]. rewrite !opp_IZR. unfold x, y, z.
  f_equal; f_equal; lra.
Qed.

Lemma translate_mul_scale (v s : vec3) :
  glm.mul (glm.translate (glm.diag 1) v) (glm.scale (glm.diag 1) s)
  = Mat4 (Vec4 (vx s) 0 0 0) (Vec4 0 (vy s) 0 0) (Vec4 0 0 (vz s) 0)
      (Vec4 (vx v) (vy v) (vz v) 1).
Proof.
  unfold glm.mul, glm.mul_vec, glm.scale, glm.translate, glm.diag,
    glm.vec4_scale, glm.vec4_add. cbn [col0 col1 col2 col3 x4 y4 z4 w4].
  f_equal; f_equal; lra.
Qed.

Lemma in_lattice_extents Nx Ny Nz i j k :
  in_lattice Nx Ny Nz (i, j, k) → 0 < Nx ∧ 0 < Ny ∧ 0 < Nz.
Proof. unfold in_lattice. lia. Qed.

Lemma instance_record_at Nx Ny Nz spread sphereScale i j k :
  in_lattice Nx Ny Nz (i, j, k) →
  buildInstanceData Nx Ny Nz spread sphereScale
    !! Z.to_nat (linear_index Ny Nz i j k)
  = Some (instance_at Nx Nz spread sphereScale i j k).
Proof.
  intros Hc. destruct (in_lattice_extents _ _ _ _ _ _ Hc) as (? & ? & ?).
  apply buildInstanceData_lookup; (done || lia).
Qed.

(** C4.  The record of lattice cell [(i, j, k)] holds the model matrix
    [T * S]: the translation by [(x, y, z)] with
    [x = -(Nx / 2) * spread + spread * i], [y = spread * j + spread],
    [z = -(Nz / 2) * spread + spread * k], times the uniform scale.  In the
    2 x 2 x 2 grid the record of [(0, 0, 0)] is translated by
    [(-spread, spread, -spread)] and that of [(1, 1, 1)] by
    [(0, 2 * spread, 0)]. *)
Theorem instance_model_is_translate_times_scale
    (Nx Ny Nz : Z) (spread sphereScale : float) :
  (∀ i j k, in_lattice Nx Ny Nz (i, j, k) →
     let x := (- (IZR Nx / 2) * spread + spread * IZR i)%R in
     let y := (spread * IZR j + spread)%R in
     let z := (- (IZR Nz / 2) * spread + spread * IZR k)%R in
     ∃ r,
       buildInstanceData Nx Ny Nz spread sphereScale
         !! Z.to_nat (linear_index Ny Nz i j k) = Some r ∧
       model r
       = glm.mul (glm.translate (glm.diag 1) (Vec3 x y z))
           (glm.scale (glm.diag 1) (glm.splat sphereScale)) ∧
       translation (model r) = Vec3 x y z) ∧
  (Nx = 2 → Ny = 2 → Nz = 2 →
   ∃ r0 r1,
     buildInstanceData Nx Ny Nz spread sphereScale
       !! Z.to_nat (linear_index Ny Nz 0 0 0) = Some r0 ∧
     buildInstanceData Nx Ny Nz spread sphereScale
       !! Z.to_nat (linear_index Ny Nz 1 1 1) = Some r1 ∧
     translation (model r0) = Vec3 (- spread) spread (- spread) ∧
     translation (model r1) = Vec3 0 (2 * spread) 0).
Proof.
  split.
  - intros i j k Hc x y z.
    exists (instance_at Nx Nz spread sphereScale i j k).
    split; [by apply instance_record_at|].
    rewrite translate_mul_scale, instance_at_model. done.
  - intros -> -> ->.
    exists (instance_at 2 2 spread sphereScale 0 0 0),
      (instance_at 2 2 spread sphereScale 1 1 1).
    split; [apply instance_record_at; unfold in_lattice; lia|].
    split; [apply instance_record_at; unfold in_lattice; lia|].
    rewrite !instance_at_model. unfold translation.
    cbn [col3 x4 y4 z4]. split; f_equal; lra.
Qed.

Lemma instance_model_is_translate_times_scale_witness :
  ∃ r0 r1,
    buildInstanceData 2 2 2 1.15 0.33 !! 0%nat = Some r0 ∧
    buildInstanceData 2 2 2 1.15 0.33 !! 7%nat = Some r1 ∧
    translation (model r0) = Vec3 (- (1.15)) 1.15 (- (1.15)) ∧
    translation (model r1) = Vec3 0 (2 * 1.15) 0.
Proof.
  exact (proj2 (instance_model_is_translate_times_scale 2 2 2 1.15 0.33)
           eq_refl eq_refl eq_refl).
Defined.

(** C5.  The record of lattice cell [(i, j, k)] has the colour
    [(0.1 * (i + 1), 0.1 * (j + 1), 0.1 * (k + 1))] whatever the spacing and
    the scale are.  Nothing clamps it: a component is above 1 exactly from
    coordinate 10 on, it stays within [0.1 * N] for an extent [N], and in
    the program's grid of extent 30 the last cell has colour [(3, 3, 3)]. *)
Theorem instance_color_from_lattice_coordinate
    (Nx Ny Nz : Z) (i j k : Z) :
  in_lattice Nx Ny Nz (i, j, k) →
  let c := Vec3 (0.1 * IZR (i + 1)) (0.1 * IZR (j + 1)) (0.1 * IZR (k + 1)) in
  (∀ spread sphereScale, ∃ r,
     buildInstanceData Nx Ny Nz spread sphereScale
       !! Z.to_nat (linear_index Ny Nz i j k) = Some r ∧
     color r = c) ∧
  ((1 < vx c)%R ↔ 10 ≤ i) ∧ ((1 < vy c)%R ↔ 10 ≤ j) ∧
  ((1 < vz c)%R ↔ 10 ≤ k) ∧
  (vx c <= 0.1 * IZR Nx)%R ∧ (vy c <= 0.1 * IZR Ny)%R ∧
  (vz c <= 0.1 * IZR Nz)%R ∧
  (Nx = numObj_x → Ny = numObj_y → Nz = numObj_z →
   i = 29 → j = 29 → k = 29 → c = Vec3 3 3 3).
Proof.
  intros Hc c. split.
  { intros spread sphereScale.
    exists (instance_at Nx Nz spread sphereScale i j k).
    split; [by apply instance_record_at | reflexivity]. }
  unfold in_lattice in Hc. unfold c. cbn [vx vy vz].
  assert (∀ n, (1 < 0.1 * IZR (n + 1))%R ↔ 10 ≤ n) as Hgt.
  { intros n. split.
    - intros Hn. apply Z.lt_succ_r, lt_IZR. rewrite succ_IZR.
      rewrite plus_IZR in Hn. lra.
    - intros Hn. apply IZR_le in Hn. rewrite plus_IZR. lra. }
  assert (∀ n N, n < N → (0.1 * IZR (n + 1) <= 0.1 * IZR N)%R) as Hle.
  { intros n N Hn. assert (n + 1 ≤ N) as H%IZR_le by lia. lra. }
  repeat split; try apply Hgt; try (apply Hle; lia).
  intros _ _ _ -> -> ->. rewrite !plus_IZR. f_equal; lra.
Qed.

Lemma instance_color_from_lattice_coordinate_witness :
  ∃ r, buildInstanceData 30 30 30 1.15 0.33
         !! Z.to_nat (linear_index 30 30 29 29 29) = Some r ∧
       color r = Vec3 3 3 3.
Proof.
  pose proof (instance_color_from_lattice_coordinate 30 30 30 29 29 29
                ltac:(unfold in_lattice; lia)) as (Hr & _ & _ & _ & _ & _ & _ & Hc).
  destruct (Hr 1.15%R 0.33%R) as (r & Hlookup & Hcolor).
  exists r. split; [exact Hlookup|].
  rewrite Hcolor. apply Hc; reflexivity.
Defined.



(** ** The claims about the camera, the exit status and the shaders *)

Lemma camera_radius_pos : (0 < camera_radius)%R.
Proof.
  unfold camera_radius, cameraDist, spread, numObj_x. lra.
Qed.

(** C7.  At elapsed time [t] the camera is moved to
    [(-radius * sin (speed * t), y, radius * cos (speed * t))] where [y] is
    the height it had before; at [t = 0] that is [(0, y, radius)], and its
    distance from the vertical axis is [radius] at all times.  In a run of
    [main] the camera of iteration [n] is at that position for the time of
    the iteration, at the height [cameraDist] it was created with. *)
Theorem camera_orbits_at_fixed_radius (t : float) (cameraPos : vec3) :
  let p := move_camera t cameraPos in
  p = Vec3 (- camera_radius * sin (camera_speed * t)) (vy cameraPos)
        (camera_radius * cos (camera_speed * t)) ∧
  move_camera 0 cameraPos = Vec3 0 (vy cameraPos) camera_radius ∧
  sqrt (vx p * vx p + vz p * vz p) = camera_radius ∧
  ∀ fuel be code q n d,
    main fuel be = Some (code, q) → draws q !! n = Some d →
    draw_eye d
    = Vec3 (- camera_radius * sin (camera_speed * frame_time be n)) cameraDist
        (camera_radius * cos (camera_speed * frame_time be n)).
Proof.
  intros p. pose proof camera_radius_pos as Hr.
  split; [|split; [|split]].
  - unfold p, move_camera. rewrite (Rmult_comm t camera_speed).
    f_equal; ring.
  - unfold move_camera. rewrite Rmult_0_l, sin_0, cos_0. f_equal; ring.
  - unfold p, move_camera. cbn [vx vz].
    pose proof (sin2_cos2 (t * camera_speed)) as Hsc. unfold Rsqr in Hsc.
    replace (sin (t * camera_speed) * - camera_radius
             * (sin (t * camera_speed) * - camera_radius)
             + cos (t * camera_speed) * camera_radius
               * (cos (t * camera_speed) * camera_radius))%R
      with (camera_radius * camera_radius)%R by nra.
    apply sqrt_square. lra.
  - intros fuel be code q n d Hrun Hd.
    apply main_inv in Hrun
      as [(_ & _ & ->)|(_ & _ & k & _ & _ & ->)]; [done|].
    unfold main_process in Hd. cbn [draws] in Hd.
    rewrite list_lookup_fmap in Hd.
    destruct (seq 0 k !! n) as [m|] eqn:Hm; [|done].
    apply lookup_seq in Hm as [-> _]. injection Hd as <-.
    unfold frame_draw, orbit_position, move_camera. cbn [draw_eye vy].
    change (0 + n)%nat with n.
    rewrite (Rmult_comm (frame_time be n) camera_speed).
    f_equal; ring.
Qed.

(** C8.  [main] returns -1 exactly when an initialisation step fails (no
    matter how long it is given), returns 0 once the window is reported
    closed, and returns nothing else. *)
Theorem main_exit_status (be : Backend) :
  (init_fails be → ∀ fuel, main fuel be = Some (-1, Process_start)) ∧
  (¬ init_fails be →
   ∀ k fuel, window_closes_at be k → (6 ≤ fuel)%nat → (k < fuel)%nat →
     ∃ p, main fuel be = Some (0, p)) ∧
  (∀ fuel code p, main fuel be = Some (code, p) →
     (code = -1 ∧ init_fails be) ∨
     (code = 0 ∧ ¬ init_fails be ∧ ∃ k, window_closes_at be k)).
Proof.
  split; [|split].
  - intros Hfail fuel. by apply main_init_fails.
  - intros Hok k fuel Hk Hf Hlt. exists (main_process be k).
    by apply main_run.
  - intros fuel code p Hrun.
    apply main_inv in Hrun
      as [(Hfail & -> & _)|(Hok & -> & k & Hk & _ & _)]; [by left|].
    right. split; [done|]. split; [done|]. by exists k.
Qed.

Lemma backend_ok_init : ¬ init_fails backend_ok.
Proof. intros [H|[H|H]]; [discriminate H | discriminate H | by apply H]. Qed.

Lemma backend_ok_closes : window_closes_at backend_ok 2.
Proof.
  split; [|discriminate].
  intros m Hm. simpl. by destruct (decide (m < 2)%nat).
Qed.

Lemma backend_bad_shaders_init : ¬ init_fails backend_bad_shaders.
Proof. intros [H|[H|H]]; [discriminate H | discriminate H | by apply H]. Qed.

Lemma backend_bad_shaders_closes : window_closes_at backend_bad_shaders 2.
Proof.
  split; [|discriminate].
  intros m Hm. simpl. by destruct (decide (m < 2)%nat).
Qed.

Lemma main_exit_status_witness :
  (∃ p, main 6 backend_ok = Some (0, p)) ∧
  main 6 backend_no_window = Some (-1, Process_start).
Proof.
  split.
  - apply (proj1 (proj2 (main_exit_status backend_ok))
             backend_ok_init 2%nat 6%nat backend_ok_closes); lia.
  - apply (proj1 (main_exit_status backend_no_window)).
    right. by left.
Defined.

(** C9.  [compileShader] returns the handle it created whether or not the
    compilation succeeded.  On a failed compilation it appends
    ["Error compiling shader: "], the information log and a line end to the
    error stream and changes nothing else; on a successful one it leaves the
    process as it was.  [main] goes on after a failed compilation: it still
    draws every frame and returns 0 when the window is closed, with the
    diagnostics of the two shaders on the error stream. *)
Theorem compileShader_reports_and_continues
    (be : Backend) (type : Z) (source : string) (p : Process) :
  let shader := glCreateShader be type in
  fst (compileShader be type source p) = shader ∧
  (compileStatus be shader source = 0 →
   snd (compileShader be type source p)
   = write_cerr
       ("Error compiling shader: "
        +:+ glGetShaderInfoLog be shader source 512 +:+ endl) p) ∧
  (compileStatus be shader source ≠ 0 →
   snd (compileShader be type source p) = p) ∧
  (¬ init_fails be →
   ∀ k fuel, window_closes_at be k → (6 ≤ fuel)%nat → (k < fuel)%nat →
     ∃ q, main fuel be = Some (0, q) ∧
          cerr q
          = shader_diagnostic be GL_VERTEX_SHADER vertexShaderSource
            +:+ shader_diagnostic be GL_FRAGMENT_SHADER fragmentShaderSource ∧
          length (draws q) = k).
Proof.
  intros shader. unfold compileShader. fold shader.
  split; [|split; [|split]].
  - by destruct (compileStatus be shader source =? 0).
  - intros ->. reflexivity.
  - intros Hne. apply Z.eqb_neq in Hne. by rewrite Hne.
  - intros Hok k fuel Hk Hf Hlt. exists (main_process be k).
    split; [by apply main_run|]. split; [reflexivity|].
    unfold main_process. cbn [draws]. by rewrite length_fmap, length_seq.
Qed.

Lemma compileShader_reports_and_continues_witness :
  snd (compileShader backend_bad_shaders GL_VERTEX_SHADER vertexShaderSource
         Process_start)
  = write_cerr ("Error compiling shader: 0:1: syntax error" +:+ endl)
      Process_start ∧
  ∃ q, main 6 backend_bad_shaders = Some (0, q) ∧
       cerr q
       = ("Error compiling shader: 0:1: syntax error" +:+ endl)
         +:+ ("Error compiling shader: 0:1: syntax error" +:+ endl) ∧
       length (draws q) = 2%nat.
Proof.
  pose proof (compileShader_reports_and_continues backend_bad_shaders
                GL_VERTEX_SHADER vertexShaderSource Process_start)
    as (_ & Hfail & _ & Hmain).
  split; [exact (Hfail eq_refl)|].
  apply (Hmain backend_bad_shaders_init 2%nat 6%nat
           backend_bad_shaders_closes); lia.
Defined.

(** * Further properties of the code *)

(** ** The mesh at its edges *)

Lemma bind_all_nil {A B : Type} (f : A → list B) (l : list A) :
  (∀ x, f x = []) → l ≫= f = [].
Proof.
  intros Hf. induction l as [|x l IH]; [reflexivity|].
  by rewrite bind_cons, Hf, IH.
Qed.

Lemma sphere_indices_no_bands L G : L = 0 ∨ G = 0 → sphere_indices L G = [].
Proof.
  unfold sphere_indices. intros [-> | ->]; [reflexivity|].
  by apply bind_all_nil.
Qed.

(** X1.  With no latitude bands or no longitude bands (and the other count
    below [UINT_MAX]) [generateSphere] still returns: the vertex buffer
    holds the [(L + 1) * (G + 1)] vertices of the degenerate grid and the
    index buffer is empty, so nothing would be drawn. *)
Theorem generateSphere_without_bands
    (L G : Z) (fuel : nat) (vertices0 : list float) (indices0 : list Z) :
  0 ≤ L < UINT_MAX → 0 ≤ G < UINT_MAX → (sphere_fuel L G ≤ fuel)%nat →
  L = 0 ∨ G = 0 →
  ∃ vertices,
    generateSphere fuel vertices0 indices0 L G = Some (vertices, []) ∧
    Z.of_nat (vertex_count vertices) = (L + 1) * (G + 1) ∧
    triangle_count [] = 0%nat.
Proof.
  intros HL HG Hf Hzero. exists (sphere_vertices L G).
  rewrite generateSphere_run by done.
  rewrite (sphere_indices_no_bands L G Hzero).
  split; [reflexivity|]. split; [|reflexivity].
  unfold vertex_count. rewrite length_sphere_vertices by lia.
  rewrite Nat.mul_comm, Nat.div_mul by done. nia.
Qed.

Lemma generateSphere_without_bands_witness :
  ∃ vertices,
    generateSphere 5 [] [7] 0 3 = Some (vertices, []) ∧
    Z.of_nat (vertex_count vertices) = 4.
Proof.
  destruct (generateSphere_without_bands 0 3 5 [] [7])
    as (vertices & Hrun & Hcount & _);
    [unfold UINT_MAX; lia | unfold UINT_MAX; lia | vm_compute; lia
    | by left |].
  exists vertices. split; [exact Hrun | exact Hcount].
Defined.

(** ** Which vertices a quad names *)

Lemma sphere_indices_lookup L G lat lon (c : nat) :
  0 ≤ lat < L → 0 ≤ lon < G → (c < 6)%nat →
  sphere_indices L G !! (6 * Z.to_nat (lat * G + lon) + c)%nat
  = quad_indices G lat lon !! c.
Proof.
  intros Hlat Hlon Hc. unfold sphere_indices.
  replace (6 * Z.to_nat (lat * G + lon) + c)%nat
    with (Z.to_nat lat * (Z.to_nat G * 6) + (Z.to_nat lon * 6 + c))%nat
    by nia.
  rewrite (lookup_bind_uniform _ (Z.to_nat G * 6) _) with (x := lat).
  - rewrite (lookup_bind_uniform _ 6 _) with (x := lon); [done|done| |done].
    apply lookup_seqZ. lia.
  - intros x. rewrite (length_bind_uniform _ 6); [|done].
    by rewrite length_seqZ.
  - apply lookup_seqZ. lia.
  - nia.
Qed.

Lemma uwrap_uwrap_add a b : uwrap (uwrap a + b) = uwrap (a + b).
Proof. unfold uwrap. apply Zplus_mod_idemp_l. Qed.

Lemma uwrap_mul_uwrap a b : uwrap (a * uwrap b) = uwrap (a * b).
Proof. unfold uwrap. apply Zmult_mod_idemp_r. Qed.

(** Each index of a quad is the number of its corner reduced modulo
    [2^32]. *)
Lemma quad_indices_wrapped G lat lon :
  quad_indices G lat lon = uwrap <$> quad_corners G lat lon.
Proof.
  unfold quad_indices, quad_corners, vertex_number, uadd, umul. simpl.
  rewrite !uwrap_mul_uwrap.
  repeat (rewrite uwrap_uwrap_add || rewrite <- Z.add_assoc).
  repeat (apply (f_equal2 cons); [f_equal; lia|]). reflexivity.
Qed.

Lemma quad_corners_range L G lat lon v :
  1 ≤ L → 1 ≤ G → 0 ≤ lat < L → 0 ≤ lon < G →
  v ∈ quad_corners G lat lon → 0 ≤ v < (L + 1) * (G + 1).
Proof.
  intros HL HG Hlat Hlon Hv. unfold quad_corners, vertex_number in Hv.
  assert ((lat + 1) * (G + 1) + (lon + 1) < (L + 1) * (G + 1)) by nia.
  assert (0 ≤ lat * (G + 1)) by nia.
  repeat (apply elem_of_cons in Hv as [-> | Hv]); try lia.
  by apply elem_of_nil in Hv.
Qed.

Lemma quad_indices_exact L G lat lon :
  1 ≤ L → 1 ≤ G → (L + 1) * (G + 1) ≤ UINT_MAX + 1 →
  0 ≤ lat < L → 0 ≤ lon < G →
  quad_indices G lat lon = quad_corners G lat lon.
Proof.
  intros HL HG Hsize Hlat Hlon. rewrite quad_indices_wrapped.
  pose proof (λ v, quad_corners_range L G lat lon v HL HG Hlat Hlon)
    as Hrange.
  induction (quad_corners G lat lon) as [|v l IH]; [reflexivity|].
  rewrite fmap_cons, IH by (intros; apply Hrange; by right).
  rewrite uwrap_small; [done|].
  pose proof (Hrange v ltac:(by left)). lia.
Qed.

(** X2.  When the vertex grid has at most [2^32] vertices, the six indices
    of quad [(lat, lon)] stand at positions [6 * (lat * G + lon)] onwards of
    the index buffer and are the numbers of its corners:
    [(lat, lon), (lat + 1, lon), (lat, lon + 1)] for the first triangle and
    [(lat + 1, lon), (lat + 1, lon + 1), (lat, lon + 1)] for the second. *)
Theorem index_buffer_names_quad_corners
    (L G : Z) (fuel : nat) (vertices0 : list float) (indices0 : list Z) :
  1 ≤ L → 1 ≤ G → (L + 1) * (G + 1) ≤ UINT_MAX + 1 →
  (sphere_fuel L G ≤ fuel)%nat →
  ∃ vertices indices,
    generateSphere fuel vertices0 indices0 L G = Some (vertices, indices) ∧
    ∀ lat lon (c : nat), 0 ≤ lat < L → 0 ≤ lon < G → (c < 6)%nat →
      indices !! (6 * Z.to_nat (lat * G + lon) + c)%nat
      = quad_corners G lat lon !! c.
Proof.
  intros HL HG Hsize Hf.
  assert (L < UINT_MAX ∧ G < UINT_MAX) as [HL' HG'] by (unfold UINT_MAX in *; nia).
  exists (sphere_vertices L G), (sphere_indices L G).
  split; [apply generateSphere_run; lia|].
  intros lat lon c Hlat Hlon Hc.
  rewrite sphere_indices_lookup by done.
  by rewrite (quad_indices_exact L G).
Qed.

Lemma index_buffer_names_quad_corners_witness :
  ∃ vertices indices,
    generateSphere 6 [] [] 4 4 = Some (vertices, indices) ∧
    indices !! 40%nat = Some 13 ∧ indices !! 41%nat = Some 8.
Proof.
  destruct (index_buffer_names_quad_corners 4 4 6 [] [])
    as (vertices & indices & Hrun & Hquad);
    [lia | lia | unfold UINT_MAX; lia | vm_compute; lia |].
  exists vertices, indices. split; [exact Hrun|]. split.
  - exact (Hquad 1 2 4%nat ltac:(lia) ltac:(lia) ltac:(lia)).
  - exact (Hquad 1 2 5%nat ltac:(lia) ltac:(lia) ltac:(lia)).
Defined.

(** X3.  The indices are computed in [unsigned int]: in general each index
    is the number of its corner modulo [2^32].  Once the grid has more than
    [2^32] vertices the index pass no longer names the right vertices: the
    index emitted for the last corner [(L, G)] of the last quad is not the
    number of that vertex. *)
Theorem index_buffer_wraps_on_large_grids (L G : Z) (fuel : nat) :
  1 ≤ L ≤ UINT_MAX → 1 ≤ G ≤ UINT_MAX → (sphere_fuel L G ≤ fuel)%nat →
  ∃ indices,
    generateIndices fuel L G [] = Some indices ∧
    (∀ lat lon (c : nat), 0 ≤ lat < L → 0 ≤ lon < G → (c < 6)%nat →
       indices !! (6 * Z.to_nat (lat * G + lon) + c)%nat
       = uwrap <$> quad_corners G lat lon !! c) ∧
    (UINT_MAX + 1 < (L + 1) * (G + 1) →
     indices !! (6 * Z.to_nat ((L - 1) * G + (G - 1)) + 4)%nat
     = Some (uwrap (vertex_number G L G)) ∧
     uwrap (vertex_number G L G) < vertex_number G L G).
Proof.
  intros HL HG Hf. exists (sphere_indices L G).
  split; [by rewrite generateIndices_run by lia|].
  assert (∀ lat lon (c : nat), 0 ≤ lat < L → 0 ≤ lon < G → (c < 6)%nat →
            sphere_indices L G !! (6 * Z.to_nat (lat * G + lon) + c)%nat
            = uwrap <$> quad_corners G lat lon !! c) as Hquad.
  { intros lat lon c Hlat Hlon Hc.
    rewrite sphere_indices_lookup by done.
    by rewrite quad_indices_wrapped, list_lookup_fmap. }
  split; [exact Hquad|]. intros Hbig. split.
  - rewrite Hquad by lia. unfold quad_corners. simpl.
    do 2 f_equal. unfold vertex_number. lia.
  - pose proof (uwrap_range (vertex_number G L G)).
    unfold vertex_number in *. nia.
Qed.

Lemma index_buffer_wraps_on_large_grids_witness :
  ∃ indices,
    generateIndices (sphere_fuel 65536 65536) 65536 65536 [] = Some indices ∧
    indices !! (6 * Z.to_nat ((65536 - 1) * 65536 + (65536 - 1)) + 4)%nat
    = Some (uwrap (vertex_number 65536 65536 65536)) ∧
    uwrap (vertex_number 65536 65536 65536) < vertex_number 65536 65536 65536.
Proof.
  destruct (index_buffer_wraps_on_large_grids 65536 65536
              (sphere_fuel 65536 65536))
    as (indices & Hrun & _ & Hwrap);
    [unfold UINT_MAX; lia | unfold UINT_MAX; lia | apply Nat.le_refl |].
  exists indices. split; [exact Hrun|].
  apply Hwrap. unfold UINT_MAX. lia.
Defined.

(** ** Indices and vertices together *)

Lemma vertex_floats_on_sphere L G lat lon :
  ∃ v, match vertex_floats L G lat lon with
       | [px; py; pz; nx; ny; nz] =>
           Some {| position := Vec3 px py pz; normal := Vec3 nx ny nz |}
       | _ => None
       end = Some v ∧
       glm.length (position v) = 1%R ∧ normal v = position v.
Proof.
  unfold vertex_floats. eexists. split; [reflexivity|].
  cbn [position normal]. split.
  - etrans; [|apply (unit_sphere_point (IZR lat * PI / IZR L)
                       (IZR lon * 2 * PI / IZR G))].
    f_equal. f_equal; ring.
  - f_equal; ring.
Qed.

(** X4.  Every index that [generateSphere] returns can be looked up in the
    vertex buffer it returns, and the vertex found there lies on the unit
    sphere and carries its own position as its normal. *)
Theorem every_index_names_a_unit_vertex
    (L G : Z) (fuel : nat) (vertices0 : list float) (indices0 : list Z) :
  1 ≤ L < UINT_MAX → 1 ≤ G < UINT_MAX → (sphere_fuel L G ≤ fuel)%nat →
  ∃ vertices indices,
    generateSphere fuel vertices0 indices0 L G = Some (vertices, indices) ∧
    ∀ x, x ∈ indices →
      ∃ v, vertex_at vertices (Z.to_nat x) = Some v ∧
           glm.length (position v) = 1%R ∧ normal v = position v.
Proof.
  intros HL HG Hf. exists (sphere_vertices L G), (sphere_indices L G).
  split; [apply generateSphere_run; lia|].
  intros x Hx.
  apply sphere_indices_bound in Hx; [|lia|lia].
  pose proof (Z.div_mod x (G + 1) ltac:(lia)) as Hdiv.
  pose proof (Z.mod_pos_bound x (G + 1) ltac:(lia)) as Hlon.
  assert (0 ≤ x / (G + 1)) as Hlat0 by (apply Z.div_pos; lia).
  assert (x / (G + 1) < L + 1) as Hlat1
    by (apply Z.div_lt_upper_bound; lia).
  destruct (vertex_floats_on_sphere L G (x / (G + 1)) (x mod (G + 1)))
    as (v & Hv & Hlen & Hnormal).
  exists v. split; [|done].
  rewrite <- Hv, <- sphere_vertex_at by lia. do 2 f_equal. lia.
Qed.

Lemma every_index_names_a_unit_vertex_witness :
  ∃ vertices indices,
    generateSphere 6 [] [] 4 4 = Some (vertices, indices) ∧
    ∀ x, x ∈ indices →
      ∃ v, vertex_at vertices (Z.to_nat x) = Some v ∧
           glm.length (position v) = 1%R.
Proof.
  destruct (every_index_names_a_unit_vertex 4 4 6 [] [])
    as (vertices & indices & Hrun & Hv);
    [unfold UINT_MAX; lia | unfold UINT_MAX; lia | vm_compute; lia |].
  exists vertices, indices. split; [exact Hrun|].
  intros x Hx. destruct (Hv x Hx) as (v & Hat & Hlen & _).
  exists v. split; [exact Hat | exact Hlen].
Defined.

(** ** Poles and seam *)

(** X5.  In exact arithmetic the first row of vertices lies at the north
    pole [(0, 1, 0)] and the last row at the south pole [(0, -1, 0)], and
    the last vertex of every row repeats the first one: the mesh duplicates
    its poles and its seam, and the first triangle of every quad of the
    first row has two corners at the same point. *)
Theorem sphere_duplicates_poles_and_seam
    (L G : Z) (fuel : nat) (vertices0 : list float) (indices0 : list Z) :
  1 ≤ L < UINT_MAX → 1 ≤ G < UINT_MAX → (sphere_fuel L G ≤ fuel)%nat →
  ∃ vertices indices,
    generateSphere fuel vertices0 indices0 L G = Some (vertices, indices) ∧
    (∀ lon, 0 ≤ lon ≤ G →
       vertex_at vertices (Z.to_nat (vertex_number G 0 lon))
       = Some {| position := Vec3 0 1 0; normal := Vec3 0 1 0 |} ∧
       vertex_at vertices (Z.to_nat (vertex_number G L lon))
       = Some {| position := Vec3 0 (-1) 0; normal := Vec3 0 (-1) 0 |}) ∧
    (∀ lat, 0 ≤ lat ≤ L →
       vertex_at vertices (Z.to_nat (vertex_number G lat G))
       = vertex_at vertices (Z.to_nat (vertex_number G lat 0))) ∧
    (∀ lon, 0 ≤ lon < G →
       ∃ a b, indices !! (6 * Z.to_nat lon)%nat = Some a ∧
              indices !! (6 * Z.to_nat lon + 2)%nat = Some b ∧
              a ≠ b ∧
              vertex_at vertices (Z.to_nat a) = vertex_at vertices (Z.to_nat b)).
Proof.
  intros HL HG Hf. exists (sphere_vertices L G), (sphere_indices L G).
  split; [apply generateSphere_run; lia|].
  assert (IZR L ≠ 0%R) as HLr by (apply not_0_IZR; lia).
  assert (IZR G ≠ 0%R) as HGr by (apply not_0_IZR; lia).
  assert (∀ lon, 0 ≤ lon ≤ G →
            vertex_at (sphere_vertices L G) (Z.to_nat (vertex_number G 0 lon))
            = Some {| position := Vec3 0 1 0; normal := Vec3 0 1 0 |})
    as Hnorth.
  { intros lon Hlon. unfold vertex_number.
    rewrite sphere_vertex_at by lia. unfold vertex_floats.
    replace (0 * PI / IZR L)%R with 0%R by (field; done).
    rewrite sin_0, cos_0. do 2 f_equal; f_equal; ring. }
  split; [|split].
  - intros lon Hlon. split; [by apply Hnorth|].
    unfold vertex_number. rewrite sphere_vertex_at by lia.
    unfold vertex_floats.
    replace (IZR L * PI / IZR L)%R with PI by (field; done).
    rewrite sin_PI, cos_PI. do 2 f_equal; f_equal; ring.
  - intros lat Hlat. unfold vertex_number.
    rewrite !sphere_vertex_at by lia. unfold vertex_floats.
    replace (IZR G * 2 * PI / IZR G)%R with (2 * PI)%R by (field; done).
    replace (0 * 2 * PI / IZR G)%R with 0%R by (field; done).
    by rewrite sin_2PI, cos_2PI, sin_0, cos_0.
  - intros lon Hlon.
    exists (vertex_number G 0 lon), (vertex_number G 0 (lon + 1)).
    pose proof (sphere_indices_lookup L G 0 lon 0 ltac:(lia) ltac:(lia)
                  ltac:(lia)) as H0.
    pose proof (sphere_indices_lookup L G 0 lon 2 ltac:(lia) ltac:(lia)
                  ltac:(lia)) as H2.
    rewrite quad_indices_wrapped, list_lookup_fmap in H0, H2.
    replace (0 * G + lon) with lon in H0, H2 by lia.
    rewrite Nat.add_0_r in H0. rewrite H0, H2.
    unfold quad_corners. simpl.
    rewrite !uwrap_small by (unfold vertex_number, UINT_MAX in *; lia).
    split; [done|]. split; [done|].
    split; [unfold vertex_number; lia|].
    by rewrite !Hnorth by lia.
Qed.

Lemma sphere_duplicates_poles_and_seam_witness :
  ∃ vertices indices,
    generateSphere 6 [] [] 4 4 = Some (vertices, indices) ∧
    vertex_at vertices 3
    = Some {| position := Vec3 0 1 0; normal := Vec3 0 1 0 |} ∧
    vertex_at vertices 23
    = Some {| position := Vec3 0 (-1) 0; normal := Vec3 0 (-1) 0 |} ∧
    vertex_at vertices 14 = vertex_at vertices 10.
Proof.
  destruct (sphere_duplicates_poles_and_seam 4 4 6 [] [])
    as (vertices & indices & Hrun & Hpole & Hseam & _);
    [unfold UINT_MAX; lia | unfold UINT_MAX; lia | vm_compute; lia |].
  exists vertices, indices. split; [exact Hrun|].
  split; [exact (proj1 (Hpole 3 ltac:(lia)))|].
  split; [exact (proj2 (Hpole 3 ltac:(lia))) | exact (Hseam 2 ltac:(lia))].
Defined.

(** ** Where the instances are *)

Lemma instance_centre_eq Nx Nz spread sphereScale i j k :
  instance_centre Nx Nz spread sphereScale i j k
  = Vec3 (- (IZR Nx / 2) * spread + spread * IZR i) (spread * IZR j + spread)
      (- (IZR Nz / 2) * spread + spread * IZR k).
Proof. unfold instance_centre. by rewrite instance_at_model. Qed.

Lemma distinct_cells_apart (i j k i' j' k' : Z) :
  (i, j, k) ≠ (i', j', k') →
  (1 <= (IZR i - IZR i') * (IZR i - IZR i')
        + (IZR j - IZR j') * (IZR j - IZR j')
        + (IZR k - IZR k') * (IZR k - IZR k'))%R.
Proof.
  intros Hne.
  assert (1 ≤ (i - i') * (i - i') + (j - j') * (j - j') + (k - k') * (k - k'))
    as H%IZR_le.
  { assert (∀ d : Z, 0 ≤ d * d) as Hsq0 by (intros; nia).
    assert (∀ d : Z, d ≠ 0 → 1 ≤ d * d) as Hsq1 by (intros; nia).
    pose proof (Hsq0 (i - i')). pose proof (Hsq0 (j - j')).
    pose proof (Hsq0 (k - k')).
    destruct (decide (i = i')) as [->|];
      [destruct (decide (j = j')) as [->|];
         [destruct (decide (k = k')) as [->|]; [done|]|]|].
    - pose proof (Hsq1 (k - k') ltac:(lia)). lia.
    - pose proof (Hsq1 (j - j') ltac:(lia)). lia.
    - pose proof (Hsq1 (i - i') ltac:(lia)). lia. }
  by rewrite !plus_IZR, !mult_IZR, !minus_IZR in H.
Qed.





(** X8.  After the loops every slot of the instance array holds the record
    of the lattice cell it belongs to, none is left value-initialised, and
    there is no slot beyond [Nx * Ny * Nz]. *)
Theorem instance_array_fully_assigned
    (Nx Ny Nz : Z) (spread sphereScale : float) :
  0 < Nx → 0 < Ny → 0 < Nz →
  (∀ n, 0 ≤ n < Nx * Ny * Nz →
     ∃ i j k,
       in_lattice Nx Ny Nz (i, j, k) ∧ linear_index Ny Nz i j k = n ∧
       buildInstanceData Nx Ny Nz spread sphereScale !! Z.to_nat n
       = Some (instance_at Nx Nz spread sphereScale i j k) ∧
       instance_at Nx Nz spread sphereScale i j k ≠ InstanceData_zero) ∧
  (∀ m : nat, Nx * Ny * Nz ≤ Z.of_nat m →
     buildInstanceData Nx Ny Nz spread sphereScale !! m = None).
Proof.
  intros HNx HNy HNz. split.
  - intros n Hn.
    pose proof (linear_index_of_cell Nx Ny Nz HNy HNz n Hn) as [Hc Hidx].
    destruct (cell_of_index Ny Nz n) as [[i j] k]. exists i, j, k.
    split; [done|]. split; [done|]. split.
    + rewrite <- Hidx. by apply instance_record_at.
    + intros Heq. apply (f_equal (λ r, w4 (col3 (model r)))) in Heq.
      rewrite instance_at_model in Heq. cbn in Heq. lra.
  - intros m Hm. apply lookup_ge_None.
    rewrite length_buildInstanceData by lia. lia.
Qed.

Lemma instance_array_fully_assigned_witness :
  ∃ i j k,
    in_lattice 2 3 4 (i, j, k) ∧ linear_index 3 4 i j k = 17 ∧
    buildInstanceData 2 3 4 1.15 0.33 !! Z.to_nat 17
    = Some (instance_at 2 4 1.15 0.33 i j k).
Proof.
  destruct (proj1 (instance_array_fully_assigned 2 3 4 1.15 0.33
                     ltac:(lia) ltac:(lia) ltac:(lia)) 17 ltac:(lia))
    as (i & j & k & Hc & Hidx & Hlookup & _).
  exists i, j, k. split; [exact Hc|]. split; [exact Hidx | exact Hlookup].
Defined.

(** ** What the shaders make of an instance *)

Lemma instance_FragPos inverse view projection Nx Nz spread sphereScale
    i j k aPos aNormal :
  FragPos
    (vertex_shader_main inverse view projection aPos aNormal
       (model (instance_at Nx Nz spread sphereScale i j k))
       (color (instance_at Nx Nz spread sphereScale i j k)))
  = Vec3
      (vx (instance_centre Nx Nz spread sphereScale i j k)
       + sphereScale * vx aPos)
      (vy (instance_centre Nx Nz spread sphereScale i j k)
       + sphereScale * vy aPos)
      (vz (instance_centre Nx Nz spread sphereScale i j k)
       + sphereScale * vz aPos).
Proof.
  rewrite instance_centre_eq. unfold vertex_shader_main. cbn [FragPos].
  rewrite instance_at_model.
  unfold glm.mul_vec, glm.vec4_add, glm.vec4_scale, glsl.vec4_of,
    glsl.vec3_of.
  cbn [col0 col1 col2 col3 x4 y4 z4 w4 vx vy vz]. f_equal; ring.
Qed.

Lemma length_scaled (s : R) (v : vec3) :
  glm.length (Vec3 (s * vx v) (s * vy v) (s * vz v))
  = (Rabs s * glm.length v)%R.
Proof.
  unfold glm.length. cbn [vx vy vz].
  replace (s * vx v * (s * vx v) + s * vy v * (s * vy v)
           + s * vz v * (s * vz v))%R
    with (s² * (vx v * vx v + vy v * vy v + vz v * vz v))%R
    by (unfold Rsqr; ring).
  rewrite sqrt_mult_alt by apply Rle_0_sqr.
  by rewrite sqrt_Rsqr_abs.
Qed.

(** X9.  For a vertex [aPos] of the mesh drawn as part of the instance of
    cell [(i, j, k)], the vertex shader places it at the centre of the
    instance plus [sphereScale * aPos], at [|sphereScale|] times the length
    of [aPos] from that centre, and the fragment shader outputs the colour
    of the instance with alpha 1 whatever the position and the normal
    are. *)
Theorem shaders_place_and_colour_an_instance
    (inverse : mat4 → mat4) (view projection : mat4) (Nx Nz : Z)
    (spread sphereScale : float) (i j k : Z) (aPos aNormal : vec3) :
  let r := instance_at Nx Nz spread sphereScale i j k in
  let c := instance_centre Nx Nz spread sphereScale i j k in
  let out :=
    vertex_shader_main inverse view projection aPos aNormal (model r)
      (color r) in
  FragPos out
  = Vec3 (vx c + sphereScale * vx aPos) (vy c + sphereScale * vy aPos)
      (vz c + sphereScale * vz aPos) ∧
  glm.length (vec3_sub (FragPos out) c)
  = (Rabs sphereScale * glm.length aPos)%R ∧
  fragment_shader_main (FragPos out) (Normal out) (Color out)
  = Vec4 (0.1 * IZR (i + 1)) (0.1 * IZR (j + 1)) (0.1 * IZR (k + 1)) 1.
Proof.
  intros r c out. unfold out, r, c.
  rewrite instance_FragPos. split; [reflexivity|]. split; [|reflexivity].
  rewrite <- length_scaled. unfold vec3_sub. cbn [vx vy vz].
  f_equal. f_equal; ring.
Qed.



Lemma unit_length_sq (u : vec3) :
  glm.length u = 1%R → (vx u * vx u + vy u * vy u + vz u * vz u = 1)%R.
Proof.
  unfold glm.length. intros Hu.
  assert (0 <= vx u * vx u + vy u * vy u + vz u * vz u)%R as Hpos by nra.
  pose proof (sqrt_lem_0 _ 1 Hpos ltac:(lra) Hu). lra.
Qed.

(** X11.  When the spacing exceeds twice the (non-negative) scale, as
    [1.15] exceeds twice [0.33] in the program, the shaded positions of two
    different instances never coincide for vertices of the unit sphere: the
    spheres of the grid do not touch. *)
Theorem instances_do_not_touch
    (inverse : mat4 → mat4) (view projection : mat4) (Nx Nz : Z)
    (spread sphereScale : float) (i j k i' j' k' : Z)
    (u u' aNormal aNormal' : vec3) :
  (0 <= sphereScale)%R → (2 * sphereScale < spread)%R →
  (i, j, k) ≠ (i', j', k') →
  glm.length u = 1%R → glm.length u' = 1%R →
  FragPos
    (vertex_shader_main inverse view projection u aNormal
       (model (instance_at Nx Nz spread sphereScale i j k))
       (color (instance_at Nx Nz spread sphereScale i j k)))
  ≠ FragPos
      (vertex_shader_main inverse view projection u' aNormal'
         (model (instance_at Nx Nz spread sphereScale i' j' k'))
         (color (instance_at Nx Nz spread sphereScale i' j' k'))).
Proof.
  intros Hs Hspread Hne Hu Hu'.
  rewrite !instance_FragPos, !instance_centre_eq. cbn [vx vy vz].
  intros Heq. injection Heq as Hx Hy Hz.
  apply unit_length_sq in Hu, Hu'.
  pose proof (distinct_cells_apart _ _ _ _ _ _ Hne) as Hd.
  destruct u as [ux uy uz], u' as [ux' uy' uz']. cbn [vx vy vz] in *.
  set (a := (IZR i - IZR i')%R) in *. set (b := (IZR j - IZR j')%R) in *.
  set (c := (IZR k - IZR k')%R) in *.
  assert (spread * a = sphereScale * (ux' - ux))%R as Ha by (unfold a; lra).
  assert (spread * b = sphereScale * (uy' - uy))%R as Hb by (unfold b; lra).
  assert (spread * c = sphereScale * (uz' - uz))%R as Hc by (unfold c; lra).
  set (D := ((ux' - ux) * (ux' - ux) + (uy' - uy) * (uy' - uy)
             + (uz' - uz) * (uz' - uz))%R).
  assert (spread * spread * (a * a + b * b + c * c)
          = sphereScale * sphereScale * D)%R as Hsq.
  { transitivity (spread * a * (spread * a) + spread * b * (spread * b)
                  + spread * c * (spread * c))%R; [ring|].
    rewrite Ha, Hb, Hc. unfold D. ring. }
  assert (D <= 4)%R as HD.
  { pose proof (Rle_0_sqr (ux + ux')) as H1.
    pose proof (Rle_0_sqr (uy + uy')) as H2.
    pose proof (Rle_0_sqr (uz + uz')) as H3.
    unfold Rsqr in H1, H2, H3. unfold D. lra. }
  assert (0 <= sphereScale * sphereScale)%R by nra.
  assert (sphereScale * sphereScale * D <= 4 * (sphereScale * sphereScale))%R
    by nra.
  assert (4 * (sphereScale * sphereScale) < spread * spread)%R by nra.
  assert (spread * spread <= spread * spread * (a * a + b * b + c * c))%R
    by nra.
  lra.
Qed.

Lemma instances_do_not_touch_witness :
  FragPos
    (vertex_shader_main (λ m, m) (glm.diag 1) (glm.diag 1) (Vec3 0 1 0)
       (Vec3 0 1 0) (model (instance_at 30 30 spread 0.33 0 0 0))
       (color (instance_at 30 30 spread 0.33 0 0 0)))
  ≠ FragPos
      (vertex_shader_main (λ m, m) (glm.diag 1) (glm.diag 1) (Vec3 0 (-1) 0)
         (Vec3 0 (-1) 0) (model (instance_at 30 30 spread 0.33 0 1 0))
         (color (instance_at 30 30 spread 0.33 0 1 0))).
Proof.
  apply instances_do_not_touch.
  - lra.
  - unfold spread. lra.
  - discriminate.
  - unfold glm.length. cbn [vx vy vz]. rewrite <- sqrt_1 at 3.
    f_equal. ring.
  - unfold glm.length. cbn [vx vy vz]. rewrite <- sqrt_1 at 1.
    f_equal. ring.
Defined.

(** ** The camera and the view *)

Lemma main_draws fuel be code q d :
  main fuel be = Some (code, q) → d ∈ draws q →
  ∃ n, d = frame_draw be (sphere_indices 4 4)
             (Vec3 0 (IZR numObj_y * spread * 0.5) 0) (Vec3 0 0 (-1))
             cameraDist n.
Proof.
  intros Hrun Hd.
  apply main_inv in Hrun as [(_ & _ & ->)|(_ & _ & k & _ & _ & ->)].
  - by apply elem_of_nil in Hd.
  - unfold main_process in Hd. cbn [draws] in Hd.
    apply list_elem_of_fmap in Hd as (n & -> & _). by exists n.
Qed.

Lemma main_run_backend_ok :
  main 6 backend_ok = Some (0, main_process backend_ok 2).
Proof.
  apply main_run; [apply backend_ok_init | apply backend_ok_closes | lia | lia].
Qed.

(** X12.  In every frame that [main] draws, the arguments handed to
    [glm::lookAt] are well-formed: the camera is not at the target, the
    viewing direction is not parallel to the up vector (their cross product
    is not zero), and the camera keeps one and the same distance from the
    target. *)
Theorem camera_view_is_never_degenerate
    (fuel : nat) (be : Backend) (code : Z) (q : Process) (d : DrawCall) :
  main fuel be = Some (code, q) → d ∈ draws q →
  draw_eye d ≠ draw_target d ∧
  vec3_cross (vec3_sub (draw_target d) (draw_eye d)) (draw_up d)
  ≠ Vec3 0 0 0 ∧
  glm.length (vec3_sub (draw_eye d) (draw_target d))
  = sqrt (camera_radius * camera_radius
          + (cameraDist - IZR numObj_y * spread * 0.5)
            * (cameraDist - IZR numObj_y * spread * 0.5)).
Proof.
  intros Hrun Hd. destruct (main_draws _ _ _ _ _ Hrun Hd) as [n ->].
  unfold frame_draw, orbit_position, move_camera.
  cbn [draw_eye draw_target draw_up vy].
  split; [|split].
  - intros Heq. apply (f_equal vy) in Heq. cbn [vy] in Heq.
    unfold cameraDist, spread, numObj_x, numObj_y in Heq. lra.
  - intros Heq. apply (f_equal vx) in Heq.
    unfold vec3_cross, vec3_sub in Heq. cbn [vx vy vz] in Heq.
    unfold cameraDist, spread, numObj_x, numObj_y in Heq. lra.
  - unfold glm.length, vec3_sub. cbn [vx vy vz]. f_equal.
    pose proof (sin2_cos2 (frame_time be n * camera_speed)) as Hsc.
    unfold Rsqr in Hsc.
    set (sn := sin (frame_time be n * camera_speed)) in *.
    set (cs := cos (frame_time be n * camera_speed)) in *.
    replace ((sn * - camera_radius - 0) * (sn * - camera_radius - 0)
             + (cameraDist - IZR numObj_y * spread * 0.5)
               * (cameraDist - IZR numObj_y * spread * 0.5)
             + (cs * camera_radius - 0) * (cs * camera_radius - 0))%R
      with (camera_radius * camera_radius * (sn * sn + cs * cs)
            + (cameraDist - IZR numObj_y * spread * 0.5)
              * (cameraDist - IZR numObj_y * spread * 0.5))%R by ring.
    rewrite Hsc. ring.
Qed.

Lemma camera_view_is_never_degenerate_witness :
  ∃ q d,
    main 6 backend_ok = Some (0, q) ∧ draws q !! 1%nat = Some d ∧
    draw_eye d ≠ draw_target d ∧
    vec3_cross (vec3_sub (draw_target d) (draw_eye d)) (draw_up d)
    ≠ Vec3 0 0 0.
Proof.
  exists (main_process backend_ok 2).
  exists (frame_draw backend_ok (sphere_indices 4 4)
            (Vec3 0 (IZR numObj_y * spread * 0.5) 0) (Vec3 0 0 (-1))
            cameraDist 1).
  split; [exact main_run_backend_ok|]. split; [reflexivity|].
  pose proof (camera_view_is_never_degenerate 6 backend_ok 0
                (main_process backend_ok 2)
                (frame_draw backend_ok (sphere_indices 4 4)
                   (Vec3 0 (IZR numObj_y * spread * 0.5) 0) (Vec3 0 0 (-1))
                   cameraDist 1) main_run_backend_ok) as Hview.
  destruct Hview as (Heye & Hcross & _).
  - unfold main_process. cbn [draws].
    apply list_elem_of_fmap_2, elem_of_seq. lia.
  - split; [exact Heye | exact Hcross].
Defined.

(** X13.  The orbit has period [20 * PI] seconds: moving the camera at time
    [t + 20 * PI] gives the position of time [t], and half a period later
    the camera is on the opposite side of the axis. *)
Theorem camera_orbit_period (t : float) (cameraPos : vec3) :
  move_camera (t + 20 * PI) cameraPos = move_camera t cameraPos ∧
  move_camera (t + 10 * PI) cameraPos
  = Vec3 (- vx (move_camera t cameraPos)) (vy cameraPos)
      (- vz (move_camera t cameraPos)).
Proof.
  unfold move_camera, camera_speed. cbn [vx vz]. split.
  - replace ((t + 20 * PI) * 0.1)%R with (t * 0.1 + 2 * PI)%R by lra.
    rewrite sin_plus, cos_plus, sin_2PI, cos_2PI. f_equal; ring.
  - replace ((t + 10 * PI) * 0.1)%R with (t * 0.1 + PI)%R by lra.
    rewrite neg_sin, neg_cos. f_equal; ring.
Qed.

(** ** The diagnostic of compileShader *)

Lemma length_substring_0 (m : nat) (s : string) :
  String.length (String.substring 0 m s) = Nat.min m (String.length s).
Proof.
  revert s. induction m as [|m IH]; intros [|c s]; try reflexivity.
  change (S (String.length (String.substring 0 m s))
          = S (Nat.min m (String.length s))).
  by rewrite IH.
Qed.

Lemma substring_0_all (m : nat) (s : string) :
  (String.length s ≤ m)%nat → String.substring 0 m s = s.
Proof.
  revert s. induction m as [|m IH]; intros [|c s] Hlen; try reflexivity.
  - simpl in Hlen. lia.
  - change (String c (String.substring 0 m s) = String c s).
    rewrite IH; [done|]. simpl in Hlen. lia.
Qed.

Lemma length_append (a b : string) :
  String.length (a +:+ b) = (String.length a + String.length b)%nat.
Proof.
  induction a as [|c a IH]; [reflexivity|].
  change (S (String.length (a +:+ b))
          = S (String.length a + String.length b)).
  by rewrite IH.
Qed.

(** X14.  One call of [compileShader] appends at most 536 characters to
    the error stream (the 24 of the prefix, at most 511 of the information
    log, which is cut to fit the 512-byte buffer, and the line end) and
    leaves the buffers and the draw calls of the process alone; a log of up
    to 511 characters is printed in full. *)
Theorem compileShader_diagnostic_is_bounded
    (be : Backend) (type : Z) (source : string) (p : Process) :
  let shader := glCreateShader be type in
  let p' := snd (compileShader be type source p) in
  ∃ text,
    cerr p' = cerr p +:+ text ∧
    (String.length text ≤ 536)%nat ∧
    (compileStatus be shader source = 0 →
     (String.length (shaderInfoLog be shader source) ≤ 511)%nat →
     text
     = "Error compiling shader: " +:+ shaderInfoLog be shader source
       +:+ endl) ∧
    VBO p' = VBO p ∧ EBO p' = EBO p ∧ instanceVBO p' = instanceVBO p ∧
    draws p' = draws p.
Proof.
  intros shader p'. unfold p'. rewrite compileShader_diagnostic.
  exists (shader_diagnostic be type source).
  split; [reflexivity|]. split; [|split; [|done]].
  - unfold shader_diagnostic. fold shader.
    destruct (compileStatus be shader source =? 0); [|simpl; lia].
    rewrite !length_append. unfold glGetShaderInfoLog.
    rewrite length_substring_0.
    change (String.length "Error compiling shader: ") with 24%nat.
    change (String.length endl) with 1%nat. lia.
  - intros Hstatus Hlen. unfold shader_diagnostic. fold shader.
    rewrite Hstatus. change (0 =? 0) with true. cbv iota.
    unfold glGetShaderInfoLog. fold shader.
    by rewrite substring_0_all by (simpl; lia).
Qed.

(** ** What a run of main hands to the draw call *)

(** X15.  When [main] returns 0, the mesh it uploaded has 25 vertices and
    96 indices, every index names one of those vertices, and every draw
    call it issued drew exactly the uploaded indices and exactly as many
    instances as there are records in the uploaded instance buffer: no draw
    reads outside a buffer. *)
Theorem main_draws_stay_inside_buffers
    (fuel : nat) (be : Backend) (q : Process) :
  main fuel be = Some (0, q) →
  Z.of_nat (vertex_count (VBO q)) = 25 ∧
  Z.of_nat (length (EBO q)) = 96 ∧
  (∀ x, x ∈ EBO q → 0 ≤ x < Z.of_nat (vertex_count (VBO q))) ∧
  (∀ d, d ∈ draws q →
     draw_count d = length (EBO q) ∧
     draw_instancecount d = Z.of_nat (length (instanceVBO q))).
Proof.
  intros Hrun. pose proof Hrun as Hinv.
  apply main_inv in Hinv
    as [(_ & Hcode & _)|(_ & _ & k & _ & _ & Hq)]; [done|].
  assert (Z.of_nat (vertex_count (VBO q)) = 25) as Hcount.
  { rewrite Hq. unfold main_process, vertex_count. cbn [VBO].
    rewrite length_sphere_vertices by lia. reflexivity. }
  split; [exact Hcount|]. split; [|split].
  - rewrite Hq. unfold main_process. cbn [EBO].
    rewrite length_sphere_indices by lia. reflexivity.
  - intros x Hx. rewrite Hcount. rewrite Hq in Hx.
    unfold main_process in Hx. cbn [EBO] in Hx.
    apply sphere_indices_bound in Hx; lia.
  - intros d Hd. destruct (main_draws _ _ _ _ _ Hrun Hd) as [n ->].
    rewrite Hq. unfold frame_draw, main_process.
    cbn [draw_count draw_instancecount EBO instanceVBO].
    split; [reflexivity|].
    rewrite length_take, length_buildInstanceData
      by (unfold numObj_x, numObj_y, numObj_z; lia).
    unfold instanceCount, numObj_x, numObj_y, numObj_z. lia.
Qed.

Lemma main_draws_stay_inside_buffers_witness :
  ∃ q, main 6 backend_ok = Some (0, q) ∧
       Z.of_nat (vertex_count (VBO q)) = 25 ∧
       Z.of_nat (length (EBO q)) = 96.
Proof.
  exists (main_process backend_ok 2).
  split; [exact main_run_backend_ok|].
  pose proof (main_draws_stay_inside_buffers 6 backend_ok
                (main_process backend_ok 2) main_run_backend_ok)
    as (Hv & He & _).
  split; [exact Hv | exact He].
Defined.

(** X16.  Once initialisation has succeeded, nothing but the close signal
    of the window ends [main]: while the window never reports closing, the
    render loop goes on and [main] does not return. *)
Theorem main_runs_while_window_open (be : Backend) :
  ¬ init_fails be → (∀ n, glfwWindowShouldClose be n = 0) →
  never_returns (λ fuel, main fuel be).
Proof.
  intros Hok Hopen fuel.
  destruct (main fuel be) as [[code q]|] eqn:Hrun; [|reflexivity].
  apply main_inv in Hrun
    as [(Hfail & _)|(_ & _ & k & [_ Hclose] & _)]; [done|].
  by rewrite Hopen in Hclose.
Qed.

Lemma main_runs_while_window_open_witness :
  never_returns (λ fuel, main fuel backend_stays_open).
Proof.
  apply main_runs_while_window_open; [|reflexivity].
  intros [H|[H|H]]; [discriminate H | discriminate H | by apply H].
Defined.
